(** * remainder_three_fsm: a generic finite state machine and the
      modulo-three automaton built on it.

    Shallow embedding of [fsm.py] and [mod_three.py].

    - Python sets of strings are [gset string]; only emptiness, membership,
      inclusion and difference are used by the code.
    - The transition dictionary is an association list in insertion order,
      because [_validate_fsm_configuration] walks [transition_map.items()]
      and the first offending entry decides which exception is raised.
      A Python dictionary has no duplicate keys; nothing below depends on
      that, lookup returns the first binding of a key.
    - An exception is its class, its message and its [__context__] (set by
      Python when an exception is raised inside an [except] block).  A
      message is the list of the parts of the f-string that builds it:
      literal text and formatted values.  The text of a formatted set depends
      on the hash order of the run, so it is kept as the set itself.
    - A Python [str] is a sequence of code points.  It is represented by a
      Rocq [string] that holds the UTF-8 encoding of these code points, as
      a string literal of this file does.  Equality, concatenation and the
      test for the empty string are those of the byte strings; iteration
      yields one string per code point, not per byte ([chars]).
    - Methods that mutate [self] return the outcome together with the
      instance after the call, also when the outcome is an exception.
    - Logging calls have no effect on the results and are left out. *)

From stdpp Require Import base gmap sets list strings.
From Stdlib Require Import ZArith Lia Ascii.

#[local] Set Warnings "-register-all".

Local Open Scope string_scope.
Local Open Scope Z_scope.

(** ** Python values, exceptions and results *)

(** The values a caller can hand to [get_remainder]. *)
Inductive pyval : Type :=
  | PyStr (s : string)
  | PyInt (z : Z)
  | PyBool (b : bool)
  | PyNone
  | PyList (l : list pyval).

Inductive pytype : Type :=
  | TStr | TInt | TBool | TNoneType | TList.

(** [type(v)] *)
Definition type_of (v : pyval) : pytype :=
  match v with
  | PyStr _ => TStr
  | PyInt _ => TInt
  | PyBool _ => TBool
  | PyNone => TNoneType
  | PyList _ => TList
  end.

(** The three exception classes that the two modules can let escape:
    the two they define, and the [KeyError] of a dictionary subscript. *)
Inductive exn_class : Type :=
  | FSMError
  | ModThreeFSMError
  | KeyError.

(** One part of an f-string. *)
Inductive frag : Type :=
  | Lit (s : string)            (* literal text of the template *)
  | FmtStr (s : string)         (* a formatted string value *)
  | FmtInt (n : nat)            (* a formatted index *)
  | FmtSet (X : gset string)    (* a formatted set of strings *)
  | FmtType (t : pytype).       (* a formatted type object *)

Inductive exn : Type :=
  | Exn (cls : exn_class) (msg : list frag) (context : option exn).

Definition exn_cls (e : exn) : exn_class :=
  match e with Exn c _ _ => c end.

(** [str(e)] *)
Definition exn_str (e : exn) : list frag :=
  match e with Exn _ m _ => m end.

(** [e.__context__] *)
Definition exn_context (e : exn) : option exn :=
  match e with Exn _ _ c => c end.

Inductive result (A : Type) : Type :=
  | Ok (a : A)
  | Raise (e : exn).

Arguments Ok {A} a.
Arguments Raise {A} e.

(** The UTF-8 encoding of a code point: one byte below U+0080, two below
    U+0800, three below U+10000 and four from there on.  The first byte
    tells the length; the others are continuation bytes, 0x80 to 0xBF. *)
Definition utf8_encode (cp : N) : string :=
  if (cp <? 128)%N then
    String (ascii_of_N cp) EmptyString
  else if (cp <? 2048)%N then
    String (ascii_of_N (192 + cp / 64))
      (String (ascii_of_N (128 + cp mod 64)) EmptyString)
  else if (cp <? 65536)%N then
    String (ascii_of_N (224 + cp / 4096))
      (String (ascii_of_N (128 + (cp / 64) mod 64))
         (String (ascii_of_N (128 + cp mod 64)) EmptyString))
  else
    String (ascii_of_N (240 + cp / 262144))
      (String (ascii_of_N (128 + (cp / 4096) mod 64))
         (String (ascii_of_N (128 + (cp / 64) mod 64))
            (String (ascii_of_N (128 + cp mod 64)) EmptyString))).

(** The Rocq string that represents the Python string with the code points
    [cps]. *)
Fixpoint utf8_encode_all (cps : list N) : string :=
  match cps with
  | [] => EmptyString
  | cp :: rest => String.append (utf8_encode cp) (utf8_encode_all rest)
  end.

(** A continuation byte of UTF-8: the two high bits are 1 and 0. *)
Definition is_continuation (c : ascii) : bool :=
  match c with
  | Ascii _ _ _ _ _ _ b6 b7 => b7 && negb b6
  end.

(** Puts the byte [c] in front of the characters [l] of [rest]: as the
    first byte of the first of them when [rest] starts with a continuation
    byte, as a character of its own otherwise. *)
Definition attach (c : ascii) (rest : string) (l : list string)
  : list string :=
  match rest, l with
  | String c' _, chunk :: chunks =>
      if is_continuation c' then String c chunk :: chunks
      else String c EmptyString :: l
  | _, _ => String c EmptyString :: l
  end.

(** Iterating over a Python string yields its characters, each a string of
    length one: in the representation, the encoding of each code point.  A
    character starts at every byte that is not a continuation byte and
    takes the continuation bytes that follow it. *)
Fixpoint chars (s : string) : list string :=
  match s with
  | EmptyString => []
  | String c rest => attach c rest (chars rest)
  end.

(** [d.get(k)] on a dictionary kept in insertion order. *)
Fixpoint dict_get {V : Type} (d : list (string * string * V))
    (k : string * string) : option V :=
  match d with
  | [] => None
  | (k', v) :: rest => if decide (k' = k) then Some v else dict_get rest k
  end.

(** ** fsm.py *)

Module Fsm.

(** The messages of the [FSMError]s, one per [raise] of the source. *)
Definition msg_states_empty : list frag :=
  [Lit "States set cannot be empty"].
Definition msg_alphabet_empty : list frag :=
  [Lit "Alphabet set cannot be empty"].
Definition msg_initial_not_in_states (initial_state : string) : list frag :=
  [Lit "Initial state '"; FmtStr initial_state; Lit "' not in states set"].
Definition msg_final_not_subset : list frag :=
  [Lit "Final states must be a subset of states"].
Definition msg_map_state (state : string) : list frag :=
  [Lit "State '"; FmtStr state; Lit "' in transition map not in states set"].
Definition msg_map_symbol (symbol : string) : list frag :=
  [Lit "Symbol '"; FmtStr symbol; Lit "' in transition map not in alphabet"].
Definition msg_map_next_state (next_state : string) : list frag :=
  [Lit "Next state '"; FmtStr next_state;
   Lit "' in transition map not in states set"].
Definition msg_symbol_not_in_alphabet (symbol : string) (alphabet : gset string)
  : list frag :=
  [Lit "Symbol '"; FmtStr symbol; Lit "' not in alphabet "; FmtSet alphabet].
Definition msg_no_transition (state symbol : string) : list frag :=
  [Lit "No transition defined for state '"; FmtStr state;
   Lit "' with input '"; FmtStr symbol; Lit "'"].
Definition msg_position (i : nat) (symbol : string) (inner : list frag)
  : list frag :=
  ([Lit "Error at position "; FmtInt i; Lit " while processing '";
   FmtStr symbol; Lit "': "] ++ inner)%list.
Definition msg_rejected (state : string) (final_states : gset string)
  : list frag :=
  [Lit "Input string rejected: final state '"; FmtStr state;
   Lit "' is not in final states "; FmtSet final_states].

Record FSM : Type := mkFSM {
  states : gset string;
  alphabet : gset string;
  transition_map : list (string * string * string);
  initial_state : string;
  final_states : gset string;
  current_state : string
}.

Definition set_current_state (m : FSM) (q : string) : FSM :=
  {| states := states m;
     alphabet := alphabet m;
     transition_map := transition_map m;
     initial_state := initial_state m;
     final_states := final_states m;
     current_state := q |}.

(** The loop of [_validate_fsm_configuration] over
    [transition_map.items()]. *)
Fixpoint validate_transitions (states alphabet : gset string)
    (items : list (string * string * string)) : result unit :=
  match items with
  | [] => Ok tt
  | ((state, symbol), next_state) :: rest =>
      if negb (bool_decide (state ∈ states)) then
        Raise (Exn FSMError (msg_map_state state) None)
      else if negb (bool_decide (symbol ∈ alphabet)) then
        Raise (Exn FSMError (msg_map_symbol symbol) None)
      else if negb (bool_decide (next_state ∈ states)) then
        Raise (Exn FSMError (msg_map_next_state next_state) None)
      else validate_transitions states alphabet rest
  end.

Definition _validate_fsm_configuration (states alphabet : gset string)
    (transition_map : list (string * string * string))
    (initial_state : string) (final_states : gset string) : result unit :=
  if bool_decide (states = ∅) then
    Raise (Exn FSMError msg_states_empty None)
  else if bool_decide (alphabet = ∅) then
    Raise (Exn FSMError msg_alphabet_empty None)
  else if negb (bool_decide (initial_state ∈ states)) then
    Raise (Exn FSMError (msg_initial_not_in_states initial_state) None)
  else if negb (bool_decide (final_states ⊆ states)) then
    Raise (Exn FSMError msg_final_not_subset None)
  else validate_transitions states alphabet transition_map.

(** [FSM.__init__].  The copies of the arguments are the arguments: the
    containers of the model are values. *)
Definition init (states alphabet : gset string)
    (transition_map : list (string * string * string))
    (initial_state : string) (final_states : gset string) : result FSM :=
  match _validate_fsm_configuration states alphabet transition_map
          initial_state final_states with
  | Raise e => Raise e
  | Ok _ =>
      Ok {| states := states;
            alphabet := alphabet;
            transition_map := transition_map;
            initial_state := initial_state;
            final_states := final_states;
            current_state := initial_state |}
  end.

Definition reset (m : FSM) : FSM :=
  set_current_state m (initial_state m).

Definition transition (m : FSM) (symbol : string) : result unit * FSM :=
  if negb (bool_decide (symbol ∈ alphabet m)) then
    (Raise (Exn FSMError (msg_symbol_not_in_alphabet symbol (alphabet m)) None),
     m)
  else
    let transition_key := (current_state m, symbol) in
    match dict_get (transition_map m) transition_key with
    | None =>
        (Raise (Exn FSMError (msg_no_transition (current_state m) symbol) None),
         m)
    | Some next_state => (Ok tt, set_current_state m next_state)
    end.

(** The [for i, symbol in enumerate(input_string)] loop of [process],
    entered at index [i]. *)
Fixpoint process_loop (m : FSM) (i : nat) (input : list string)
  : result unit * FSM :=
  match input with
  | [] => (Ok tt, m)
  | symbol :: rest =>
      match transition m symbol with
      | (Raise e, m') =>
          (Raise (Exn FSMError (msg_position i symbol (exn_str e)) (Some e)),
           m')
      | (Ok _, m') => process_loop m' (S i) rest
      end
  end.

(** The acceptance test that ends both branches of [process]. *)
Definition check_final (m : FSM) : result string * FSM :=
  if negb (bool_decide (current_state m ∈ final_states m)) then
    (Raise (Exn FSMError (msg_rejected (current_state m) (final_states m)) None),
     m)
  else (Ok (current_state m), m).

Definition process (m : FSM) (input_string : list string)
  : result string * FSM :=
  let m := reset m in
  match input_string with
  | [] => check_final m
  | _ :: _ =>
      match process_loop m 0 input_string with
      | (Raise e, m') => (Raise e, m')
      | (Ok _, m') => check_final m'
      end
  end.

Definition get_current_state (m : FSM) : string := current_state m.

(** [FSM.__str__]: the number of states, the alphabet and the current
    state. *)
Definition __str__ (m : FSM) : list frag :=
  [Lit "FSM(states="; FmtInt (size (states m)); Lit ", alphabet=";
   FmtSet (alphabet m); Lit ", current_state="; FmtStr (current_state m);
   Lit ")"].

End Fsm.

(** ** mod_three.py *)

Module ModThree.

Definition msg_init_failed (inner : list frag) : list frag :=
  Lit "Failed to initialize ModThree FSM: " :: inner.
Definition msg_not_a_string (t : pytype) : list frag :=
  [Lit "Input must be a string, got "; FmtType t].
Definition msg_invalid_characters (invalid_chars : gset string) : list frag :=
  [Lit "Binary string contains invalid characters: "; FmtSet invalid_chars].
Definition msg_processing_failed (inner : list frag) : list frag :=
  Lit "FSM processing failed: " :: inner.

Record ModThreeFSM : Type := mkModThreeFSM {
  _fsm : Fsm.FSM;
  _state_to_remainder : gmap string Z
}.

Definition states : gset string := {[ "S0"; "S1"; "S2" ]}.
Definition alphabet : gset string := {[ "0"; "1" ]}.
Definition transitions : list (string * string * string) :=
  [ (("S0", "0"), "S0");
    (("S0", "1"), "S1");
    (("S1", "0"), "S2");
    (("S1", "1"), "S0");
    (("S2", "0"), "S1");
    (("S2", "1"), "S2") ].
Definition initial_state : string := "S0".
Definition final_states : gset string := {[ "S0"; "S1"; "S2" ]}.
Definition state_to_remainder : gmap string Z :=
  <["S0" := 0]> (<["S1" := 1]> (<["S2" := 2]> ∅)).

(** [ModThreeFSM.__init__] *)
Definition init : result ModThreeFSM :=
  match Fsm.init states alphabet transitions initial_state final_states with
  | Raise e =>
      Raise (Exn ModThreeFSMError (msg_init_failed (exn_str e)) (Some e))
  | Ok f => Ok {| _fsm := f; _state_to_remainder := state_to_remainder |}
  end.

(** [c in '01'] for a character [c]. *)
Definition in_01 (c : string) : bool :=
  bool_decide (c = "0") || bool_decide (c = "1").

Definition with_fsm (self : ModThreeFSM) (f : Fsm.FSM) : ModThreeFSM :=
  {| _fsm := f; _state_to_remainder := _state_to_remainder self |}.

Definition get_remainder (self : ModThreeFSM) (binary_string : pyval)
  : result Z * ModThreeFSM :=
  match binary_string with
  | PyStr s =>
      match s with
      | EmptyString => (Ok 0, self)
      | String _ _ =>
          if negb (forallb in_01 (chars s)) then
            let invalid_chars : gset string :=
              list_to_set (chars s) ∖ {[ "0"; "1" ]} in
            (Raise (Exn ModThreeFSMError
                      (msg_invalid_characters invalid_chars) None),
             self)
          else
            match Fsm.process (_fsm self) (chars s) with
            | (Raise e, f) =>
                (Raise (Exn ModThreeFSMError
                          (msg_processing_failed (exn_str e)) (Some e)),
                 with_fsm self f)
            | (Ok final_state, f) =>
                match _state_to_remainder self !! final_state with
                | Some remainder => (Ok remainder, with_fsm self f)
                | None =>
                    (Raise (Exn KeyError [FmtStr final_state] None),
                     with_fsm self f)
                end
            end
      end
  | _ =>
      (Raise (Exn ModThreeFSMError
                (msg_not_a_string (type_of binary_string)) None),
       self)
  end.

Definition get_current_state (self : ModThreeFSM) : string :=
  Fsm.get_current_state (_fsm self).

Definition reset (self : ModThreeFSM) : ModThreeFSM :=
  with_fsm self (Fsm.reset (_fsm self)).

(** [ModThreeFSM.__str__] *)
Definition __str__ (self : ModThreeFSM) : list frag :=
  [Lit "ModThreeFSM(current_state="; FmtStr (get_current_state self);
   Lit ")"].

End ModThree.

(** The value of a string of binary digits read as a numeral, most
    significant digit first; any character other than ['1'] counts as a
    zero digit, and the empty string has the value zero. *)
Definition digit_value (c : ascii) : Z :=
  if decide (c = "1"%char) then 1 else 0.

Fixpoint integer_value_from (acc : Z) (s : string) : Z :=
  match s with
  | EmptyString => acc
  | String c rest => integer_value_from (2 * acc + digit_value c) rest
  end.

Definition integer_value (s : string) : Z := integer_value_from 0 s.

(** A string made of the characters ['0'] and ['1'] only. *)
Fixpoint is_binary (s : string) : bool :=
  match s with
  | EmptyString => true
  | String c rest =>
      (bool_decide (c = "0"%char) || bool_decide (c = "1"%char))
      && is_binary rest
  end.


(** ** Vocabulary of the statements *)

(** [Some m'] when [Fsm.transition] succeeds on every symbol of [input] in
    turn, from [m] to [m']; [None] as soon as one of them raises. *)
Fixpoint run_steps (m : Fsm.FSM) (input : list string) : option Fsm.FSM :=
  match input with
  | [] => Some m
  | symbol :: rest =>
      match Fsm.transition m symbol with
      | (Ok _, m') => run_steps m' rest
      | (Raise _, _) => None
      end
  end.

(** A transition entry whose two states and symbol are declared. *)
Definition entry_ok (states alphabet : gset string)
    (entry : string * string * string) : Prop :=
  entry.1.1 ∈ states ∧ entry.1.2 ∈ alphabet ∧ entry.2 ∈ states.

(** What validation leaves true of the definition, whatever the current
    state is. *)
Definition definition_ok (m : Fsm.FSM) : Prop :=
  Fsm.initial_state m ∈ Fsm.states m
  ∧ Forall (entry_ok (Fsm.states m) (Fsm.alphabet m)) (Fsm.transition_map m).

(** The instances a caller can hold: the constructed one, and whatever
    [reset], [transition] and [process] leave behind, whether they return
    or raise. *)
Inductive fsm_reachable (m0 : Fsm.FSM) : Fsm.FSM -> Prop :=
  | reach_init : fsm_reachable m0 m0
  | reach_reset m :
      fsm_reachable m0 m -> fsm_reachable m0 (Fsm.reset m)
  | reach_transition m symbol :
      fsm_reachable m0 m -> fsm_reachable m0 (Fsm.transition m symbol).2
  | reach_process m input :
      fsm_reachable m0 m -> fsm_reachable m0 (Fsm.process m input).2.

(** The same for the modulo-three wrapper. *)
Inductive mod3_reachable (m0 : ModThree.ModThreeFSM)
  : ModThree.ModThreeFSM -> Prop :=
  | mreach_init : mod3_reachable m0 m0
  | mreach_reset m :
      mod3_reachable m0 m -> mod3_reachable m0 (ModThree.reset m)
  | mreach_get_remainder m v :
      mod3_reachable m0 m ->
      mod3_reachable m0 (ModThree.get_remainder m v).2.

(** The error kinds of the documentation.  The source has no such type:
    [raised_as k e] says that [e] is what the code raises in the situation
    that the documentation names [k]. *)
Inductive error_kind : Type :=
  | ConfigError
  | InvalidSymbolError
  | UndefinedTransitionError
  | RejectedError
  | TypeError
  | InvalidCharacterError
  | InternalConfigError.

Inductive raised_as : error_kind -> exn -> Prop :=
  | ra_config states alphabet transition_map initial_state final_states e :
      Fsm.init states alphabet transition_map initial_state final_states
        = Raise e ->
      raised_as ConfigError e
  | ra_invalid_symbol m symbol e :
      symbol ∉ Fsm.alphabet m ->
      (Fsm.transition m symbol).1 = Raise e ->
      raised_as InvalidSymbolError e
  | ra_undefined_transition m symbol e :
      symbol ∈ Fsm.alphabet m ->
      (Fsm.transition m symbol).1 = Raise e ->
      raised_as UndefinedTransitionError e
  | ra_rejected m input m' e :
      run_steps (Fsm.reset m) input = Some m' ->
      (Fsm.process m input).1 = Raise e ->
      raised_as RejectedError e
  | ra_type self v e :
      type_of v ≠ TStr ->
      (ModThree.get_remainder self v).1 = Raise e ->
      raised_as TypeError e
  | ra_invalid_character self s e :
      is_binary s = false ->
      (ModThree.get_remainder self (PyStr s)).1 = Raise e ->
      raised_as InvalidCharacterError e
  | ra_internal_config e :
      ModThree.init = Raise e ->
      raised_as InternalConfigError e.

(** The exception class that the code uses for each kind. *)
Definition class_of_kind (k : error_kind) : exn_class :=
  match k with
  | ConfigError | InvalidSymbolError | UndefinedTransitionError
  | RejectedError => FSMError
  | TypeError | InvalidCharacterError | InternalConfigError =>
      ModThreeFSMError
  end.

(** What a caller can read from the literal text of a message: the kind of
    the error that carries it. *)
Definition kind_of_message (msg : list frag) : option error_kind :=
  match msg with
  | Lit l :: rest =>
      if decide (l = "States set cannot be empty") then Some ConfigError
      else if decide (l = "Alphabet set cannot be empty") then Some ConfigError
      else if decide (l = "Initial state '") then Some ConfigError
      else if decide (l = "Final states must be a subset of states")
      then Some ConfigError
      else if decide (l = "State '") then Some ConfigError
      else if decide (l = "Next state '") then Some ConfigError
      else if decide (l = "Symbol '") then
        match rest with
        | [_; Lit _] => Some ConfigError
        | [_; Lit _; FmtSet _] => Some InvalidSymbolError
        | _ => None
        end
      else if decide (l = "No transition defined for state '")
      then Some UndefinedTransitionError
      else if decide (l = "Input string rejected: final state '")
      then Some RejectedError
      else if decide (l = "Input must be a string, got ") then Some TypeError
      else if decide (l = "Binary string contains invalid characters: ")
      then Some InvalidCharacterError
      else if decide (l = "Failed to initialize ModThree FSM: ")
      then Some InternalConfigError
      else None
  | _ => None
  end.

(** The state of the modulo-three automaton that stands for a remainder. *)
Definition state_of (r : Z) : string :=
  if decide (r = 0) then "S0" else if decide (r = 1) then "S1" else "S2".

(** The symbol that stands for a binary digit. *)
Definition digit_symbol (d : Z) : string :=
  if decide (d = 0) then "0" else "1".

(** ** Automata of the test suite, as their constructor returns them *)

Definition ab_fsm : Fsm.FSM :=
  Fsm.mkFSM {[ "S0"; "S1" ]} {[ "a"; "b" ]}
    [ (("S0", "a"), "S1"); (("S0", "b"), "S0");
      (("S1", "a"), "S0"); (("S1", "b"), "S1") ]
    "S0" {[ "S0"; "S1" ]} "S0".

Definition partial_fsm : Fsm.FSM :=
  Fsm.mkFSM {[ "S0"; "S1" ]} {[ "a"; "b" ]}
    [ (("S0", "a"), "S1") ]
    "S0" {[ "S0"; "S1" ]} "S0".

Definition rejecting_fsm : Fsm.FSM :=
  Fsm.mkFSM {[ "S0"; "S1"; "S2" ]} {[ "a"; "b" ]}
    [ (("S0", "a"), "S1"); (("S0", "b"), "S2");
      (("S1", "a"), "S0"); (("S1", "b"), "S2");
      (("S2", "a"), "S2"); (("S2", "b"), "S2") ]
    "S0" {[ "S0" ]} "S0".

(** The engine instance of the modulo-three automaton and the automaton
    itself, as [ModThreeFSM()] returns it. *)
Definition mod3_engine : Fsm.FSM :=
  Fsm.mkFSM ModThree.states ModThree.alphabet ModThree.transitions
    ModThree.initial_state ModThree.final_states ModThree.initial_state.

Definition mod3 : ModThree.ModThreeFSM :=
  ModThree.mkModThreeFSM mod3_engine ModThree.state_to_remainder.

(** Closes a decidable goal about concrete sets and strings by evaluation. *)
Ltac by_evaluation := apply (bool_decide_unpack _); vm_compute; exact I.

(** ** The engine: effect of each operation on the instance *)

Section EngineFrame.

Implicit Types (m : Fsm.FSM) (q symbol : string) (input : list string).

Lemma set_current_state_same m :
  Fsm.set_current_state m (Fsm.current_state m) = m.
Proof. by destruct m. Qed.

Lemma transition_frame m symbol :
  ∃ q, (Fsm.transition m symbol).2 = Fsm.set_current_state m q.
Proof.
  unfold Fsm.transition.
  destruct (negb _); [exists (Fsm.current_state m)|].
  - by rewrite set_current_state_same.
  - destruct (dict_get _ _) as [q'|]; simpl; [by exists q'|].
    exists (Fsm.current_state m). by rewrite set_current_state_same.
Qed.

Lemma transition_raise_unchanged m symbol e :
  (Fsm.transition m symbol).1 = Raise e -> (Fsm.transition m symbol).2 = m.
Proof.
  unfold Fsm.transition.
  destruct (negb _); [done|].
  by destruct (dict_get _ _).
Qed.

Lemma process_loop_frame m i input :
  ∃ q, (Fsm.process_loop m i input).2 = Fsm.set_current_state m q.
Proof.
  revert m i. induction input as [|symbol rest IH]; intros m i; simpl.
  - exists (Fsm.current_state m). by rewrite set_current_state_same.
  - destruct (transition_frame m symbol) as [q Hq].
    destruct (Fsm.transition m symbol) as [[[]|e] m']; simpl in *; subst m'.
    + destruct (IH (Fsm.set_current_state m q) (S i)) as [q' Hq'].
      exists q'. by rewrite Hq'.
    + by exists q.
Qed.

Lemma check_final_frame m : (Fsm.check_final m).2 = m.
Proof. unfold Fsm.check_final. by destruct (negb _). Qed.

Lemma process_frame m input :
  ∃ q, (Fsm.process m input).2 = Fsm.set_current_state m q.
Proof.
  unfold Fsm.process. destruct input as [|symbol rest].
  - exists (Fsm.initial_state m). by rewrite check_final_frame.
  - destruct (process_loop_frame (Fsm.reset m) 0 (symbol :: rest)) as [q Hq].
    destruct (Fsm.process_loop _ _ _) as [[[]|e] m']; simpl in *; subst m'.
    + exists q. by rewrite check_final_frame.
    + by exists q.
Qed.

(** [process] starts with [reset]: the current state it is called in does
    not matter. *)
Lemma process_forgets_current m q input :
  Fsm.process (Fsm.set_current_state m q) input = Fsm.process m input.
Proof. reflexivity. Qed.

Lemma fsm_reachable_frame m0 m :
  fsm_reachable m0 m -> ∃ q, m = Fsm.set_current_state m0 q.
Proof.
  induction 1 as [|m _ [q ->]|m symbol _ [q ->]|m input _ [q ->]].
  - exists (Fsm.current_state m0). by rewrite set_current_state_same.
  - by exists (Fsm.initial_state m0).
  - destruct (transition_frame (Fsm.set_current_state m0 q) symbol)
      as [q' ->]. by exists q'.
  - destruct (process_frame (Fsm.set_current_state m0 q) input)
      as [q' ->]. by exists q'.
Qed.

Lemma init_ok_inv states alphabet transition_map initial_state final_states m0 :
  Fsm.init states alphabet transition_map initial_state final_states = Ok m0 ->
  m0 = Fsm.mkFSM states alphabet transition_map initial_state final_states
         initial_state.
Proof.
  unfold Fsm.init. destruct (Fsm._validate_fsm_configuration _ _ _ _ _); congruence.
Qed.

End EngineFrame.

(** C4. History independence of [process]: on any instance, reached by
    whatever earlier calls from a constructed automaton, running [s1]
    (whether it returns or raises) and then [s2] gives the same outcome and
    leaves the same instance as running [s2] on the freshly constructed
    automaton. *)
Theorem process_history_independent
    states alphabet transition_map initial_state final_states
    (m0 m : Fsm.FSM) (s1 s2 : list string) :
  Fsm.init states alphabet transition_map initial_state final_states = Ok m0 ->
  fsm_reachable m0 m ->
  Fsm.process (Fsm.process m s1).2 s2 = Fsm.process m0 s2.
Proof.
  intros _ Hreach.
  destruct (fsm_reachable_frame m0 m Hreach) as [q ->].
  destruct (process_frame (Fsm.set_current_state m0 q) s1) as [q' ->].
  by rewrite !process_forgets_current.
Qed.

Lemma process_history_independent_witness :
  Fsm.init {[ "S0"; "S1" ]} {[ "a"; "b" ]} (Fsm.transition_map ab_fsm)
    "S0" {[ "S0"; "S1" ]} = Ok ab_fsm
  ∧ fsm_reachable ab_fsm (Fsm.transition ab_fsm "a").2
  ∧ Fsm.process (Fsm.process (Fsm.transition ab_fsm "a").2 ["a"; "c"]).2
      ["a"; "b"]
    = Fsm.process ab_fsm ["a"; "b"].
Proof.
  split; [reflexivity|].
  split; [apply reach_transition, reach_init|].
  apply (process_history_independent {[ "S0"; "S1" ]} {[ "a"; "b" ]}
           (Fsm.transition_map ab_fsm) "S0" {[ "S0"; "S1" ]});
    [reflexivity | apply reach_transition, reach_init].
Defined.

(** ** Validation at construction *)

Section Validation.

Variables (states alphabet : gset string).

Lemma validate_transitions_ok items :
  Forall (entry_ok states alphabet) items ->
  Fsm.validate_transitions states alphabet items = Ok tt.
Proof.
  induction 1 as [|[[state symbol] next_state] rest (Hs & Ha & Hn) _ IH];
    simpl in *; [done|].
  by rewrite !bool_decide_eq_true_2.
Qed.

Lemma validate_transitions_ok_inv items :
  Fsm.validate_transitions states alphabet items = Ok tt ->
  Forall (entry_ok states alphabet) items.
Proof.
  induction items as [|[[state symbol] next_state] rest IH]; simpl;
    [constructor|].
  repeat case_bool_decide; simpl; try discriminate.
  intros Hrest. constructor; [done|auto].
Qed.

Lemma validate_transitions_skip pre items :
  Forall (entry_ok states alphabet) pre ->
  Fsm.validate_transitions states alphabet (pre ++ items)%list
  = Fsm.validate_transitions states alphabet items.
Proof.
  induction 1 as [|[[state symbol] next_state] rest (Hs & Ha & Hn) _ IH];
    simpl in *; [done|].
  by rewrite !bool_decide_eq_true_2.
Qed.

Lemma validate_transitions_raise_class items e :
  Fsm.validate_transitions states alphabet items = Raise e ->
  ∃ x, e = Exn FSMError (Fsm.msg_map_state x) None
       ∨ e = Exn FSMError (Fsm.msg_map_symbol x) None
       ∨ e = Exn FSMError (Fsm.msg_map_next_state x) None.
Proof.
  induction items as [|[[state symbol] next_state] rest IH]; simpl;
    [discriminate|].
  repeat case_bool_decide; simpl; try (intros [= <-]; eauto); auto.
Qed.

End Validation.

(** C5. [FSM.__init__] checks, in this order: the states set is not empty,
    the alphabet is not empty, the initial state is a state, the final
    states are states, and then the entries of the transition map in their
    order, for each one its state, its symbol and its next state.  The first
    check that fails decides the [FSMError] that is raised; when none
    fails, the instance is built with the initial state as current state. *)
Theorem init_validation_order
    (states alphabet : gset string)
    (transition_map : list (string * string * string))
    (initial_state : string) (final_states : gset string) :
  (states = ∅ ->
   Fsm.init states alphabet transition_map initial_state final_states
   = Raise (Exn FSMError Fsm.msg_states_empty None))
  ∧ (states ≠ ∅ -> alphabet = ∅ ->
     Fsm.init states alphabet transition_map initial_state final_states
       = Raise (Exn FSMError Fsm.msg_alphabet_empty None))
  ∧ (states ≠ ∅ -> alphabet ≠ ∅ -> initial_state ∉ states ->
     Fsm.init states alphabet transition_map initial_state final_states
       = Raise (Exn FSMError
                     (Fsm.msg_initial_not_in_states initial_state) None))
  ∧ (states ≠ ∅ -> alphabet ≠ ∅ -> initial_state ∈ states ->
     final_states ⊈ states ->
     Fsm.init states alphabet transition_map initial_state final_states
       = Raise (Exn FSMError Fsm.msg_final_not_subset None))
  ∧ (states ≠ ∅ -> alphabet ≠ ∅ -> initial_state ∈ states ->
     final_states ⊆ states ->
     ∀ pre state symbol next_state post,
       transition_map = (pre ++ (state, symbol, next_state) :: post)%list ->
       Forall (entry_ok states alphabet) pre ->
       (state ∉ states ->
        Fsm.init states alphabet transition_map initial_state final_states
       = Raise (Exn FSMError (Fsm.msg_map_state state) None))
       ∧ (state ∈ states -> symbol ∉ alphabet ->
          Fsm.init states alphabet transition_map initial_state final_states
       = Raise (Exn FSMError (Fsm.msg_map_symbol symbol) None))
       ∧ (state ∈ states -> symbol ∈ alphabet -> next_state ∉ states ->
          Fsm.init states alphabet transition_map initial_state final_states
       = Raise (Exn FSMError
                          (Fsm.msg_map_next_state next_state) None)))
  ∧ (states ≠ ∅ -> alphabet ≠ ∅ -> initial_state ∈ states ->
     final_states ⊆ states ->
     Forall (entry_ok states alphabet) transition_map ->
     Fsm.init states alphabet transition_map initial_state final_states
       = Ok (Fsm.mkFSM states alphabet transition_map initial_state
                  final_states initial_state)).
Proof.
  unfold Fsm.init, Fsm._validate_fsm_configuration.
  repeat split.
  1-4: intros; repeat case_bool_decide; simpl; congruence.
  1-3: intros; subst transition_map;
    repeat case_bool_decide; simpl; try congruence;
    rewrite validate_transitions_skip by done; simpl;
    repeat case_bool_decide; simpl; congruence.
  intros; repeat case_bool_decide; simpl; try congruence.
  by rewrite validate_transitions_ok.
Qed.

Lemma init_validation_order_witness :
  Fsm.init {[ "S0"; "S1" ]} {[ "a"; "b" ]}
    [ (("S0", "a"), "S1"); (("S1", "c"), "S9") ] "S0" {[ "S0"; "S1" ]}
  = Raise (Exn FSMError (Fsm.msg_map_symbol "c") None)
  ∧ Fsm.init {[ "S0"; "S1" ]} {[ "a"; "b" ]}
      [ (("S0", "a"), "S1"); (("S0", "b"), "S9") ] "S0" {[ "S0"; "S1" ]}
    = Raise (Exn FSMError (Fsm.msg_map_next_state "S9") None)
  ∧ Fsm.init {[ "S0"; "S1" ]} {[ "a"; "b" ]} (Fsm.transition_map ab_fsm)
      "S0" {[ "S0"; "S1" ]}
    = Ok ab_fsm.
Proof.
  split; [|split].
  - destruct (init_validation_order {[ "S0"; "S1" ]} {[ "a"; "b" ]}
                [ (("S0", "a"), "S1"); (("S1", "c"), "S9") ] "S0"
                {[ "S0"; "S1" ]}) as (_ & _ & _ & _ & Hentry & _).
    destruct (Hentry ltac:(by_evaluation) ltac:(by_evaluation)
                ltac:(by_evaluation) ltac:(by_evaluation)
                [ (("S0", "a"), "S1") ] "S1" "c" "S9" [] eq_refl)
      as (_ & Hsymbol & _).
    + repeat constructor; simpl; by_evaluation.
    + apply Hsymbol; by_evaluation.
  - destruct (init_validation_order {[ "S0"; "S1" ]} {[ "a"; "b" ]}
                [ (("S0", "a"), "S1"); (("S0", "b"), "S9") ] "S0"
                {[ "S0"; "S1" ]}) as (_ & _ & _ & _ & Hentry & _).
    destruct (Hentry ltac:(by_evaluation) ltac:(by_evaluation)
                ltac:(by_evaluation) ltac:(by_evaluation)
                [ (("S0", "a"), "S1") ] "S0" "b" "S9" [] eq_refl)
      as (_ & _ & Hnext).
    + repeat constructor; simpl; by_evaluation.
    + apply Hnext; by_evaluation.
  - destruct (init_validation_order {[ "S0"; "S1" ]} {[ "a"; "b" ]}
                (Fsm.transition_map ab_fsm) "S0" {[ "S0"; "S1" ]})
      as (_ & _ & _ & _ & _ & Hok).
    apply Hok; by_evaluation.
Defined.

(** ** Single steps *)

Section Steps.

Implicit Types (m : Fsm.FSM) (q symbol : string) (input : list string).

Lemma dict_get_Some_elem {V} (d : list (string * string * V)) k v :
  dict_get d k = Some v -> (k, v) ∈ d.
Proof.
  induction d as [|[k' v'] rest IH]; simpl; [discriminate|].
  destruct (decide (k' = k)) as [->|_].
  - intros [= ->]. apply list_elem_of_here.
  - intros H. apply list_elem_of_further. auto.
Qed.

Lemma transition_invalid_symbol m symbol :
  symbol ∉ Fsm.alphabet m ->
  Fsm.transition m symbol
  = (Raise (Exn FSMError
              (Fsm.msg_symbol_not_in_alphabet symbol (Fsm.alphabet m)) None),
     m).
Proof.
  intros H. unfold Fsm.transition. by rewrite bool_decide_eq_false_2.
Qed.

Lemma transition_undefined m symbol :
  symbol ∈ Fsm.alphabet m ->
  dict_get (Fsm.transition_map m) (Fsm.current_state m, symbol) = None ->
  Fsm.transition m symbol
  = (Raise (Exn FSMError
              (Fsm.msg_no_transition (Fsm.current_state m) symbol) None),
     m).
Proof.
  intros H Hget. unfold Fsm.transition.
  by rewrite bool_decide_eq_true_2, Hget.
Qed.

Lemma transition_defined m symbol next_state :
  symbol ∈ Fsm.alphabet m ->
  dict_get (Fsm.transition_map m) (Fsm.current_state m, symbol)
    = Some next_state ->
  Fsm.transition m symbol = (Ok tt, Fsm.set_current_state m next_state).
Proof.
  intros H Hget. unfold Fsm.transition.
  by rewrite bool_decide_eq_true_2, Hget.
Qed.

(** The three outcomes of a step, one of which always applies. *)
Lemma transition_cases m symbol :
  ((symbol ∉ Fsm.alphabet m)
   ∧ Fsm.transition m symbol
     = (Raise (Exn FSMError
                 (Fsm.msg_symbol_not_in_alphabet symbol (Fsm.alphabet m))
                 None), m))
  ∨ (symbol ∈ Fsm.alphabet m
     ∧ dict_get (Fsm.transition_map m) (Fsm.current_state m, symbol) = None
     ∧ Fsm.transition m symbol
       = (Raise (Exn FSMError
                   (Fsm.msg_no_transition (Fsm.current_state m) symbol)
                   None), m))
  ∨ (∃ next_state,
       symbol ∈ Fsm.alphabet m
       ∧ dict_get (Fsm.transition_map m) (Fsm.current_state m, symbol)
         = Some next_state
       ∧ Fsm.transition m symbol
         = (Ok tt, Fsm.set_current_state m next_state)).
Proof.
  destruct (decide (symbol ∈ Fsm.alphabet m)) as [Hin|Hout].
  - destruct (dict_get (Fsm.transition_map m) (Fsm.current_state m, symbol))
      as [next_state|] eqn:Hget.
    + right; right. exists next_state.
      eauto using transition_defined.
    + right; left. eauto using transition_undefined.
  - left. eauto using transition_invalid_symbol.
Qed.

(** The loop of [process] on an input that every step accepts. *)
Lemma process_loop_run m i input m' :
  run_steps m input = Some m' ->
  Fsm.process_loop m i input = (Ok tt, m').
Proof.
  revert m i. induction input as [|symbol rest IH]; intros m i; simpl.
  - by intros [= ->].
  - destruct (Fsm.transition m symbol) as [[[]|e] m1]; [|discriminate].
    apply IH.
Qed.

(** The loop of [process] on an input whose symbol at offset [length pre]
    is the first that a step refuses. *)
Lemma process_loop_stop m i pre symbol post m_pre e :
  run_steps m pre = Some m_pre ->
  (Fsm.transition m_pre symbol).1 = Raise e ->
  Fsm.process_loop m i (pre ++ symbol :: post)%list
  = (Raise (Exn FSMError
              (Fsm.msg_position (i + length pre)%nat symbol (exn_str e))
              (Some e)),
     m_pre).
Proof.
  revert m i. induction pre as [|a pre IH]; intros m i; simpl.
  - intros [= ->] He.
    pose proof (transition_raise_unchanged _ _ _ He) as Hsame.
    destruct (Fsm.transition m_pre symbol) as [[[]|e'] m1]; simpl in *;
      [discriminate|].
    injection He as ->. subst m1. by rewrite Nat.add_0_r.
  - destruct (Fsm.transition m a) as [[[]|e'] m1]; [|discriminate].
    intros Hrun He. rewrite (IH m1 (S i) Hrun He).
    by replace (S i + length pre)%nat with (i + S (length pre))%nat by lia.
Qed.

(** [process] is [reset], then steps over a prefix of the input. *)
Lemma process_loop_steps m i input :
  ∃ k, (k ≤ length input)%nat
       ∧ (Fsm.process_loop m i input).2
         = foldl (λ m' symbol, (Fsm.transition m' symbol).2) m
             (take k input).
Proof.
  revert m i. induction input as [|symbol rest IH]; intros m i; simpl.
  - by exists 0%nat.
  - destruct (Fsm.transition m symbol) as [[[]|e] m1] eqn:Ht.
    + destruct (IH m1 (S i)) as (k & Hk & ->).
      exists (S k). split; [lia|]. simpl. by rewrite Ht.
    + exists 0%nat. split; [lia|]. simpl.
      pose proof (transition_raise_unchanged m symbol e) as Hsame.
      rewrite Ht in Hsame. simpl in Hsame. by rewrite Hsame.
Qed.

(** [process] on an input that every step accepts ends with the acceptance
    test on the state reached. *)
Lemma process_run m input m' :
  run_steps (Fsm.reset m) input = Some m' ->
  Fsm.process m input = Fsm.check_final m'.
Proof.
  intros Hrun. unfold Fsm.process. destruct input as [|a rest].
  - simpl in Hrun. by injection Hrun as ->.
  - by rewrite (process_loop_run _ 0 _ _ Hrun).
Qed.

End Steps.

(** C6. A step raises the invalid-symbol error exactly when the symbol is
    not in the alphabet, raises the no-transition error exactly when the
    symbol is in the alphabet and the transition map has no entry for the
    current state and the symbol, raises nothing else and then leaves the
    instance as it was, and otherwise moves the current state to the mapped
    target.  The other operations change the current state through [reset]
    and steps only: [process] leaves the instance that [reset] followed by
    steps over a prefix of its input leaves, and no operation changes
    anything but the current state. *)
Theorem transition_outcomes (m : Fsm.FSM) (symbol : string) :
  ((Fsm.transition m symbol).1
   = Raise (Exn FSMError
              (Fsm.msg_symbol_not_in_alphabet symbol (Fsm.alphabet m)) None)
   ↔ symbol ∉ Fsm.alphabet m)
  ∧ ((Fsm.transition m symbol).1
     = Raise (Exn FSMError
                (Fsm.msg_no_transition (Fsm.current_state m) symbol) None)
     ↔ symbol ∈ Fsm.alphabet m
       ∧ dict_get (Fsm.transition_map m) (Fsm.current_state m, symbol)
         = None)
  ∧ (∀ e, (Fsm.transition m symbol).1 = Raise e ->
       (Fsm.transition m symbol).2 = m
       ∧ (e = Exn FSMError
                (Fsm.msg_symbol_not_in_alphabet symbol (Fsm.alphabet m)) None
          ∨ e = Exn FSMError
                  (Fsm.msg_no_transition (Fsm.current_state m) symbol) None))
  ∧ (∀ next_state,
       symbol ∈ Fsm.alphabet m ->
       dict_get (Fsm.transition_map m) (Fsm.current_state m, symbol)
         = Some next_state ->
       Fsm.transition m symbol
       = (Ok tt, Fsm.set_current_state m next_state))
  ∧ (∀ input, ∃ k,
       (k ≤ length input)%nat
       ∧ (Fsm.process m input).2
         = foldl (λ m' a, (Fsm.transition m' a).2) (Fsm.reset m)
             (take k input))
  ∧ (∀ input, ∃ q,
       (Fsm.process m input).2 = Fsm.set_current_state m q)
  ∧ Fsm.get_current_state m = Fsm.current_state m.
Proof.
  split; [|split; [|split; [|split; [|split; [|split]]]]].
  - destruct (transition_cases m symbol)
      as [(Hout & ->)|[(Hin & Hget & ->)|(q & Hin & Hget & ->)]]; simpl;
      split; try done; discriminate.
  - destruct (transition_cases m symbol)
      as [(Hout & ->)|[(Hin & Hget & ->)|(q & Hin & Hget & ->)]]; simpl;
      split; try done; try discriminate.
    + by intros [? _].
    + intros [_ ?]. congruence.
  - intros e He. split; [by eapply transition_raise_unchanged|].
    destruct (transition_cases m symbol)
      as [(Hout & Ht)|[(Hin & Hget & Ht)|(q & Hin & Hget & Ht)]];
      rewrite Ht in He; simpl in He; [left|right|discriminate]; congruence.
  - intros next_state. apply transition_defined.
  - intros input. unfold Fsm.process. destruct input as [|a rest].
    + exists 0%nat. split; [done|]. by rewrite check_final_frame.
    + destruct (process_loop_steps (Fsm.reset m) 0 (a :: rest))
        as (k & Hk & Hloop).
      exists k. split; [done|]. rewrite <- Hloop.
      destruct (Fsm.process_loop _ _ _) as [[[]|e] m']; simpl; [|done].
      by rewrite check_final_frame.
  - intros input. apply process_frame.
  - reflexivity.
Qed.

Lemma transition_outcomes_witness :
  (Fsm.transition partial_fsm "c").1
  = Raise (Exn FSMError
             (Fsm.msg_symbol_not_in_alphabet "c" {[ "a"; "b" ]}) None)
  ∧ (Fsm.transition partial_fsm "b").1
    = Raise (Exn FSMError (Fsm.msg_no_transition "S0" "b") None)
  ∧ Fsm.transition partial_fsm "a"
    = (Ok tt, Fsm.set_current_state partial_fsm "S1").
Proof.
  split; [|split].
  - apply (proj1 (transition_outcomes partial_fsm "c")). by_evaluation.
  - apply (proj1 (proj2 (transition_outcomes partial_fsm "b"))).
    split; [by_evaluation|reflexivity].
  - apply (proj1 (proj2 (proj2 (proj2
             (transition_outcomes partial_fsm "a"))))).
    + by_evaluation.
    + reflexivity.
Defined.

(** C7. When the steps of [process] succeed on the symbols before some
    position and the step on the symbol at that position raises, [process]
    raises an [FSMError] whose message gives that position, counted from
    zero, and the symbol, and ends with the message of the error of the
    step, which is also its context; the instance is left in the state that
    the successful steps reached, since the failing step changes nothing. *)
Theorem process_failure_position
    (m : Fsm.FSM) (pre : list string) (symbol : string) (post : list string)
    (m_pre : Fsm.FSM) (e : exn) :
  run_steps (Fsm.reset m) pre = Some m_pre ->
  (Fsm.transition m_pre symbol).1 = Raise e ->
  Fsm.process m (pre ++ symbol :: post)%list
  = (Raise (Exn FSMError
              (Fsm.msg_position (length pre) symbol (exn_str e)) (Some e)),
     m_pre)
  ∧ (Fsm.transition m_pre symbol).2 = m_pre
  ∧ (e = Exn FSMError
           (Fsm.msg_symbol_not_in_alphabet symbol (Fsm.alphabet m_pre)) None
     ∨ e = Exn FSMError
             (Fsm.msg_no_transition (Fsm.current_state m_pre) symbol) None).
Proof.
  intros Hrun He. split; [|split].
  - unfold Fsm.process.
    rewrite (process_loop_stop _ 0 pre symbol post m_pre e Hrun He).
    by destruct pre.
  - by eapply transition_raise_unchanged.
  - destruct (transition_cases m_pre symbol)
      as [(Hout & Ht)|[(Hin & Hget & Ht)|(q & Hin & Hget & Ht)]];
      rewrite Ht in He; simpl in He; [left|right|discriminate]; congruence.
Qed.

Lemma process_failure_position_witness :
  run_steps (Fsm.reset partial_fsm) ["a"]
  = Some (Fsm.set_current_state partial_fsm "S1")
  ∧ (Fsm.transition (Fsm.set_current_state partial_fsm "S1") "b").1
    = Raise (Exn FSMError (Fsm.msg_no_transition "S1" "b") None)
  ∧ Fsm.process partial_fsm ["a"; "b"]
    = (Raise (Exn FSMError
                (Fsm.msg_position 1 "b" (Fsm.msg_no_transition "S1" "b"))
                (Some (Exn FSMError (Fsm.msg_no_transition "S1" "b") None))),
       Fsm.set_current_state partial_fsm "S1").
Proof.
  split; [reflexivity|]. split; [reflexivity|].
  apply (process_failure_position partial_fsm ["a"] "b" []
           (Fsm.set_current_state partial_fsm "S1")
           (Exn FSMError (Fsm.msg_no_transition "S1" "b") None));
    reflexivity.
Defined.

(** C9. When every step of [process] succeeds on its input, the empty
    input included, and ends in the state [m'], [process] raises the
    rejection error that names the current state of [m'] if that state is
    not a final state, and returns that state if it is. *)
Theorem process_accept_or_reject
    (m : Fsm.FSM) (input : list string) (m' : Fsm.FSM) :
  run_steps (Fsm.reset m) input = Some m' ->
  (Fsm.current_state m' ∉ Fsm.final_states m' ->
   Fsm.process m input
   = (Raise (Exn FSMError
               (Fsm.msg_rejected (Fsm.current_state m') (Fsm.final_states m'))
               None),
      m'))
  ∧ (Fsm.current_state m' ∈ Fsm.final_states m' ->
     Fsm.process m input = (Ok (Fsm.current_state m'), m')).
Proof.
  intros Hrun.
  rewrite (process_run _ _ _ Hrun).
  unfold Fsm.check_final. split; intros H.
  - by rewrite bool_decide_eq_false_2.
  - by rewrite bool_decide_eq_true_2.
Qed.

Lemma process_accept_or_reject_witness :
  run_steps (Fsm.reset rejecting_fsm) ["a"]
  = Some (Fsm.set_current_state rejecting_fsm "S1")
  ∧ ("S1" ∉ Fsm.final_states rejecting_fsm)
  ∧ Fsm.process rejecting_fsm ["a"]
    = (Raise (Exn FSMError (Fsm.msg_rejected "S1" {[ "S0" ]}) None),
       Fsm.set_current_state rejecting_fsm "S1")
  ∧ Fsm.process rejecting_fsm ["a"; "a"] = (Ok "S0", rejecting_fsm).
Proof.
  split; [reflexivity|]. split; [by_evaluation|]. split.
  - apply (proj1 (process_accept_or_reject rejecting_fsm ["a"]
                    (Fsm.set_current_state rejecting_fsm "S1") eq_refl)).
    by_evaluation.
  - apply (proj2 (process_accept_or_reject rejecting_fsm ["a"; "a"]
                    rejecting_fsm eq_refl)).
    by_evaluation.
Defined.

(** ** The current state is a declared state *)

Section CurrentState.

Implicit Types (m : Fsm.FSM) (q symbol : string) (input : list string).

Lemma init_definition_ok states alphabet transition_map initial_state
    final_states m0 :
  Fsm.init states alphabet transition_map initial_state final_states = Ok m0 ->
  definition_ok m0 ∧ Fsm.current_state m0 = Fsm.initial_state m0.
Proof.
  unfold Fsm.init, Fsm._validate_fsm_configuration.
  repeat case_bool_decide; simpl; try discriminate.
  destruct (Fsm.validate_transitions _ _ _) as [[]|e] eqn:Hv; [|discriminate].
  intros [= <-]. repeat split; simpl; [done|].
  by apply validate_transitions_ok_inv.
Qed.

Lemma transition_current_in_states m symbol :
  definition_ok m ->
  Fsm.current_state m ∈ Fsm.states m ->
  Fsm.current_state (Fsm.transition m symbol).2 ∈ Fsm.states m.
Proof.
  intros [_ Hmap] Hcur.
  destruct (transition_cases m symbol)
    as [(_ & ->)|[(_ & _ & ->)|(q & _ & Hget & ->)]]; simpl; try done.
  apply dict_get_Some_elem in Hget.
  rewrite Forall_forall in Hmap. by destruct (Hmap _ Hget) as (_ & _ & ?).
Qed.

Lemma process_loop_current_in_states m i input :
  definition_ok m ->
  Fsm.current_state m ∈ Fsm.states m ->
  Fsm.current_state (Fsm.process_loop m i input).2 ∈ Fsm.states m.
Proof.
  revert m i. induction input as [|symbol rest IH]; intros m i Hdef Hcur;
    simpl; [done|].
  pose proof (transition_current_in_states m symbol Hdef Hcur) as Hstep.
  destruct (transition_frame m symbol) as [q Hq].
  destruct (Fsm.transition m symbol) as [[[]|e] m1]; simpl in *; subst m1;
    [|done].
  by apply (IH (Fsm.set_current_state m q) (S i)).
Qed.

Lemma process_current_in_states m input :
  definition_ok m ->
  Fsm.current_state (Fsm.process m input).2 ∈ Fsm.states m.
Proof.
  intros Hdef. unfold Fsm.process. destruct input as [|a rest].
  - rewrite check_final_frame. apply Hdef.
  - pose proof (process_loop_current_in_states (Fsm.reset m) 0 (a :: rest))
      as Hloop.
    destruct (Fsm.process_loop _ _ _) as [[[]|e] m']; simpl in *.
    + rewrite check_final_frame. apply Hloop; [done|apply Hdef].
    + apply Hloop; [done|apply Hdef].
Qed.

End CurrentState.

(** C10. In every instance that can be reached from a constructed
    automaton by calls of [reset], [transition] and [process], whether they
    return or raise, the current state is one of the declared states; it is
    the initial state right after construction. *)
Theorem current_state_in_states
    states alphabet transition_map initial_state final_states
    (m0 m : Fsm.FSM) :
  Fsm.init states alphabet transition_map initial_state final_states = Ok m0 ->
  fsm_reachable m0 m ->
  Fsm.current_state m0 = initial_state
  ∧ Fsm.states m = states
  ∧ Fsm.current_state m ∈ Fsm.states m.
Proof.
  intros Hinit Hreach.
  destruct (init_definition_ok _ _ _ _ _ _ Hinit) as [Hdef Hcur0].
  apply init_ok_inv in Hinit as Hm0.
  split; [by subst m0|].
  assert (Fsm.states m0 = states) as <- by by subst m0.
  clear Hinit Hm0.
  assert (definition_ok m ∧ Fsm.states m = Fsm.states m0
          ∧ Fsm.current_state m ∈ Fsm.states m) as (_ & ? & ?); [|done].
  induction Hreach as [|m Hreach (Hd & Hs & Hc)|m symbol Hreach (Hd & Hs & Hc)
                        |m input Hreach (Hd & Hs & Hc)].
  - repeat split; try apply Hdef. rewrite Hcur0. apply Hdef.
  - repeat split; try apply Hd; done.
  - pose proof (transition_current_in_states m symbol Hd Hc) as Hstep.
    destruct (transition_frame m symbol) as [q Hq]. rewrite Hq in *.
    repeat split; try apply Hd; done.
  - pose proof (process_current_in_states m input Hd) as Hrun.
    destruct (process_frame m input) as [q Hq]. rewrite Hq in *.
    repeat split; try apply Hd; done.
Qed.

Lemma current_state_in_states_witness :
  Fsm.init {[ "S0"; "S1" ]} {[ "a"; "b" ]} (Fsm.transition_map partial_fsm)
    "S0" {[ "S0"; "S1" ]} = Ok partial_fsm
  ∧ fsm_reachable partial_fsm (Fsm.process partial_fsm ["a"; "b"]).2
  ∧ Fsm.current_state (Fsm.process partial_fsm ["a"; "b"]).2
    ∈ Fsm.states (Fsm.process partial_fsm ["a"; "b"]).2.
Proof.
  split; [reflexivity|].
  split; [apply reach_process, reach_init|].
  apply (current_state_in_states {[ "S0"; "S1" ]} {[ "a"; "b" ]}
           (Fsm.transition_map partial_fsm) "S0" {[ "S0"; "S1" ]}
           partial_fsm);
    [reflexivity | apply reach_process, reach_init].
Defined.

(** ** Characters of a string *)

Section Characters.

Implicit Types (c : ascii) (s rest : string) (cp : N).

Lemma chars_head c rest : ∃ t l, chars (String c rest) = String c t :: l.
Proof.
  change (chars (String c rest)) with (attach c rest (chars rest)).
  unfold attach. destruct rest as [|c' r]; [by eexists _, _|].
  destruct (chars (String c' r)); [by eexists _, _|].
  destruct (is_continuation c'); by eexists _, _.
Qed.

(** A byte that no continuation byte follows is a character. *)
Lemma chars_lead c rest :
  (∀ c' r, rest = String c' r -> is_continuation c' = false) ->
  chars (String c rest) = String c EmptyString :: chars rest.
Proof.
  intros Hrest.
  change (chars (String c rest)) with (attach c rest (chars rest)).
  unfold attach. destruct rest as [|c' r]; [done|].
  destruct (chars (String c' r)); [done|].
  by rewrite (Hrest c' r eq_refl).
Qed.

(** A byte that a continuation byte follows starts the character that the
    continuation byte belongs to. *)
Lemma chars_continue c c' r chunk chunks :
  is_continuation c' = true ->
  chars (String c' r) = chunk :: chunks ->
  chars (String c (String c' r)) = String c chunk :: chunks.
Proof.
  intros Hc Heq.
  change (chars (String c (String c' r)))
    with (attach c (String c' r) (chars (String c' r))).
  rewrite Heq. unfold attach. by rewrite Hc.
Qed.

Lemma is_continuation_N_of_ascii c :
  is_continuation c
  = ((128 <=? N_of_ascii c)%N && (N_of_ascii c <? 192)%N).
Proof. by destruct c as [[] [] [] [] [] [] [] []]. Qed.

Lemma is_continuation_ascii_of_N (n : N) :
  (n < 256)%N ->
  is_continuation (ascii_of_N n) = ((128 <=? n)%N && (n <? 192)%N).
Proof.
  intros Hn. by rewrite is_continuation_N_of_ascii, N_ascii_embedding.
Qed.

Lemma continuation_byte (x : N) :
  (x < 64)%N -> is_continuation (ascii_of_N (128 + x)) = true.
Proof.
  intros Hx. rewrite is_continuation_ascii_of_N by lia.
  apply andb_true_iff. split; [apply N.leb_le|apply N.ltb_lt]; lia.
Qed.

Lemma first_byte (n : N) :
  (n < 128 ∨ 192 ≤ n < 256)%N -> is_continuation (ascii_of_N n) = false.
Proof.
  intros Hn. rewrite is_continuation_ascii_of_N by lia.
  apply andb_false_iff.
  destruct Hn as [Hn|Hn]; [left; apply N.leb_gt|right; apply N.ltb_ge]; lia.
Qed.

Lemma utf8_encode_first_byte cp :
  (cp < 1114112)%N ->
  ∃ c t, utf8_encode cp = String c t ∧ is_continuation c = false.
Proof.
  intros Hcp. unfold utf8_encode.
  repeat case_match; eexists _, _; (split; [done|]); apply first_byte;
    repeat match goal with
           | H : (_ <? _)%N = true |- _ => apply N.ltb_lt in H
           | H : (_ <? _)%N = false |- _ => apply N.ltb_ge in H
           end; zify; Z.div_mod_to_equations; lia.
Qed.

(** The characters of an encoded code point followed by [rest]: the code
    point, then the characters of [rest]. *)
Lemma chars_utf8_encode cp rest :
  (cp < 1114112)%N ->
  (∀ c' r, rest = String c' r -> is_continuation c' = false) ->
  chars (String.append (utf8_encode cp) rest)
  = utf8_encode cp :: chars rest.
Proof.
  intros Hcp Hrest. unfold utf8_encode.
  assert (∀ x, (x mod 64 < 64)%N) as Hmod by (intros; by apply N.mod_lt).
  repeat case_match; cbn [String.append].
  - by apply chars_lead.
  - apply chars_continue; [by apply continuation_byte|].
    by apply chars_lead.
  - apply chars_continue; [by apply continuation_byte|].
    apply chars_continue; [by apply continuation_byte|].
    by apply chars_lead.
  - apply chars_continue; [by apply continuation_byte|].
    apply chars_continue; [by apply continuation_byte|].
    apply chars_continue; [by apply continuation_byte|].
    by apply chars_lead.
Qed.

(** Iteration is by code point: the characters of the string that
    represents the code points [cps] are the encodings of its code points,
    one for one. *)
Lemma chars_utf8_encode_all (cps : list N) :
  Forall (λ cp, (cp < 1114112)%N) cps ->
  chars (utf8_encode_all cps) = map utf8_encode cps.
Proof.
  induction 1 as [|cp rest Hcp Hrest IH]; [done|].
  cbn [utf8_encode_all map]. rewrite chars_utf8_encode, IH; [done|done|].
  intros c' r Heq. destruct Hrest as [|cp' rest' Hcp' _]; [done|].
  cbn [utf8_encode_all] in Heq.
  destruct (utf8_encode_first_byte cp' Hcp') as (c & t & Henc & Hc).
  rewrite Henc in Heq. by injection Heq as <- _.
Qed.

Example chars_by_code_point :
  utf8_encode 8364 = "€"
  ∧ chars "1€0" = ["1"; "€"; "0"]
  ∧ chars "é😀a€" = ["é"; "😀"; "a"; "€"].
Proof. repeat split; reflexivity. Qed.

(** A binary digit is a character of one byte. *)
Lemma binary_not_continuation c :
  bool_decide (c = "0"%char) || bool_decide (c = "1"%char) = true ->
  is_continuation c = false.
Proof.
  by intros [H|H]%orb_true_iff; apply bool_decide_eq_true_1 in H; subst.
Qed.

Lemma chars_binary c rest :
  is_binary (String c rest) = true ->
  chars (String c rest) = String c EmptyString :: chars rest.
Proof.
  intros [_ Hrest]%andb_true_iff. apply chars_lead. intros c' r ->.
  apply andb_true_iff in Hrest as [Hc' _].
  by apply binary_not_continuation.
Qed.

Lemma in_01_byte c :
  ModThree.in_01 (String c EmptyString)
  = bool_decide (c = "0"%char) || bool_decide (c = "1"%char).
Proof.
  unfold ModThree.in_01. f_equal; apply bool_decide_ext; split; congruence.
Qed.

Lemma forallb_false_elem {A} (f : A -> bool) (l : list A) :
  forallb f l = false -> ∃ x, x ∈ l ∧ f x = false.
Proof.
  induction l as [|a l IH]; simpl; [discriminate|].
  intros [Ha|Hl]%andb_false_iff.
  - exists a. split; [apply list_elem_of_here|done].
  - destruct (IH Hl) as (x & Hin & Hx).
    exists x. split; [by apply list_elem_of_further|done].
Qed.

End Characters.

(** ** The modulo-three automaton *)

Section ModThreeFacts.

Implicit Types (self : ModThree.ModThreeFSM) (s : string) (q : string).

Lemma mod3_init : ModThree.init = Ok mod3.
Proof. reflexivity. Qed.

(** The instance with its engine in state [q]. *)
Local Abbreviation mod3_at q :=
  (ModThree.mkModThreeFSM (Fsm.set_current_state mod3_engine q)
     ModThree.state_to_remainder).

Lemma get_remainder_frame self v :
  ∃ q, (ModThree.get_remainder self v).2
       = ModThree.with_fsm self (Fsm.set_current_state (ModThree._fsm self) q).
Proof.
  assert (∃ q, self = ModThree.with_fsm self
                        (Fsm.set_current_state (ModThree._fsm self) q))
    as Hsame.
  { exists (Fsm.current_state (ModThree._fsm self)).
    rewrite set_current_state_same. by destruct self. }
  unfold ModThree.get_remainder.
  destruct v as [s| | | |]; try done.
  destruct s as [|c rest]; [done|].
  destruct (negb _); [done|].
  destruct (process_frame (ModThree._fsm self) (chars (String c rest)))
    as [q Hq].
  destruct (Fsm.process _ _) as [[final_state|e] f]; simpl in *; subst f.
  - destruct (_ !! final_state); by exists q.
  - by exists q.
Qed.

Lemma mod3_reachable_frame self :
  mod3_reachable mod3 self -> ∃ q, self = mod3_at q.
Proof.
  induction 1 as [|self _ [q ->]|self v _ [q ->]].
  - by exists ModThree.initial_state.
  - by exists ModThree.initial_state.
  - destruct (get_remainder_frame (mod3_at q) v) as [q' ->]. by exists q'.
Qed.

Lemma state_to_remainder_inv q r :
  ModThree.state_to_remainder !! q = Some r ->
  0 ≤ r < 3 ∧ q = state_of r.
Proof.
  unfold ModThree.state_to_remainder.
  rewrite !lookup_insert. repeat case_decide; subst;
    rewrite ?lookup_empty; intros [= <-]; done.
Qed.

Lemma state_to_remainder_state_of r :
  0 ≤ r < 3 -> ModThree.state_to_remainder !! state_of r = Some r.
Proof.
  intros Hr. assert (r = 0 ∨ r = 1 ∨ r = 2) as [->|[->| ->]] by lia;
    reflexivity.
Qed.

(** One step of the engine of the automaton, on a digit. *)
Lemma mod3_step r d :
  0 ≤ r < 3 -> 0 ≤ d < 2 ->
  Fsm.transition (Fsm.set_current_state mod3_engine (state_of r))
    (digit_symbol d)
  = (Ok tt,
     Fsm.set_current_state mod3_engine (state_of ((2 * r + d) mod 3))).
Proof.
  intros Hr Hd.
  assert (r = 0 ∨ r = 1 ∨ r = 2) as [->|[->| ->]] by lia;
    (assert (d = 0 ∨ d = 1) as [->| ->] by lia); reflexivity.
Qed.

Lemma is_binary_chars s : forallb ModThree.in_01 (chars s) = is_binary s.
Proof.
  induction s as [|c rest IH]; [done|].
  destruct rest as [|c' r].
  - cbn. by rewrite in_01_byte.
  - destruct (chars_head c' r) as (t & l & Heq).
    destruct (is_continuation c') eqn:Hc.
    + rewrite (chars_continue c c' r _ _ Hc Heq).
      cbn [forallb is_binary].
      destruct (bool_decide (c' = "0"%char) || bool_decide (c' = "1"%char))
        eqn:Hc'.
      * apply binary_not_continuation in Hc'. congruence.
      * unfold ModThree.in_01 at 1.
        rewrite !bool_decide_eq_false_2 by discriminate.
        by rewrite andb_false_r.
    + rewrite chars_lead by (by intros ? ? [= <- _]).
      cbn [forallb]. rewrite IH, in_01_byte. done.
Qed.

Lemma digit_symbol_char c :
  bool_decide (c = "0"%char) || bool_decide (c = "1"%char) = true ->
  String c EmptyString = digit_symbol (digit_value c)
  ∧ 0 ≤ digit_value c < 2.
Proof.
  intros [H|H]%orb_true_iff; apply bool_decide_eq_true_1 in H; subst;
    by vm_compute.
Qed.

(** The steps of the engine over a binary string, from the state that
    stands for the remainder of the digits read so far. *)
Lemma mod3_run s acc :
  is_binary s = true ->
  run_steps (Fsm.set_current_state mod3_engine (state_of (acc mod 3)))
    (chars s)
  = Some (Fsm.set_current_state mod3_engine
            (state_of (integer_value_from acc s mod 3))).
Proof.
  revert acc. induction s as [|c rest IH]; intros acc Hs; [done|].
  rewrite (chars_binary c rest Hs).
  apply andb_true_iff in Hs as [Hc Hrest].
  destruct (digit_symbol_char c Hc) as [-> Hd].
  cbn [run_steps integer_value_from].
  rewrite mod3_step by (done || by apply Z.mod_pos_bound).
  replace ((2 * (acc mod 3) + digit_value c) mod 3)
    with ((2 * acc + digit_value c) mod 3); [by apply IH|].
  Z.div_mod_to_equations. lia.
Qed.

Lemma state_of_final r :
  state_of r ∈ Fsm.final_states mod3_engine.
Proof.
  unfold state_of. repeat case_decide; by_evaluation.
Qed.

Lemma mod3_process q s :
  is_binary s = true ->
  Fsm.process (Fsm.set_current_state mod3_engine q) (chars s)
  = (Ok (state_of (integer_value s mod 3)),
     Fsm.set_current_state mod3_engine (state_of (integer_value s mod 3))).
Proof.
  intros Hs. rewrite process_forgets_current.
  rewrite (process_run mod3_engine (chars s)
             (Fsm.set_current_state mod3_engine
                (state_of (integer_value s mod 3)))).
  - unfold Fsm.check_final.
    by rewrite bool_decide_eq_true_2 by apply state_of_final.
  - apply (mod3_run s 0 Hs).
Qed.

(** A string that is not binary has a character that is neither 0 nor 1. *)
Lemma not_binary_char s :
  is_binary s = false -> ∃ c, c ∈ chars s ∧ c ≠ "0" ∧ c ≠ "1".
Proof.
  rewrite <- is_binary_chars. intros (c & Hin & Hc)%forallb_false_elem.
  exists c. split; [done|].
  unfold ModThree.in_01 in Hc.
  apply orb_false_iff in Hc as [H0%bool_decide_eq_false_1
                                  H1%bool_decide_eq_false_1].
  by split.
Qed.

Lemma get_remainder_not_binary self s :
  is_binary s = false ->
  ModThree.get_remainder self (PyStr s)
  = (Raise (Exn ModThreeFSMError
              (ModThree.msg_invalid_characters
                 (list_to_set (chars s) ∖ {[ "0"; "1" ]}))
              None),
     self).
Proof.
  intros Hs. unfold ModThree.get_remainder.
  destruct s as [|c rest]; [discriminate|].
  by rewrite is_binary_chars, Hs.
Qed.

End ModThreeFacts.

(** C2. In the automaton that [ModThreeFSM()] builds, the remainder table
    is S0 -> 0, S1 -> 1, S2 -> 2; every remainder [r] in 0..2 is the
    remainder of a state, and from any state whose remainder is [r] the
    step on the digit [d] succeeds and leads to a state whose remainder is
    [(2 * r + d) mod 3]. *)
Theorem mod3_transition_table (self : ModThree.ModThreeFSM) :
  ModThree.init = Ok self ->
  (ModThree._state_to_remainder self !! "S0" = Some 0
   ∧ ModThree._state_to_remainder self !! "S1" = Some 1
   ∧ ModThree._state_to_remainder self !! "S2" = Some 2)
  ∧ ∀ r d : Z, 0 ≤ r < 3 -> 0 ≤ d < 2 ->
      (∃ q, ModThree._state_to_remainder self !! q = Some r)
      ∧ ∀ q, ModThree._state_to_remainder self !! q = Some r ->
          ∃ q',
            Fsm.transition (Fsm.set_current_state (ModThree._fsm self) q)
              (digit_symbol d)
            = (Ok tt, Fsm.set_current_state (ModThree._fsm self) q')
            ∧ ModThree._state_to_remainder self !! q'
              = Some ((2 * r + d) mod 3).
Proof.
  rewrite mod3_init. intros [= <-]. simpl. split; [done|].
  intros r d Hr Hd. split.
  - exists (state_of r). by apply state_to_remainder_state_of.
  - intros q [_ ->]%state_to_remainder_inv.
    exists (state_of ((2 * r + d) mod 3)). split.
    + by apply mod3_step.
    + apply state_to_remainder_state_of. by apply Z.mod_pos_bound.
Qed.

Lemma mod3_transition_table_witness :
  ModThree.init = Ok mod3
  ∧ ∃ q',
      Fsm.transition (Fsm.set_current_state mod3_engine "S2") "0"
      = (Ok tt, Fsm.set_current_state mod3_engine q')
      ∧ ModThree.state_to_remainder !! q' = Some 1.
Proof.
  split; [reflexivity|].
  destruct (mod3_transition_table mod3 eq_refl) as [_ Htable].
  destruct (Htable 2 0 ltac:(lia) ltac:(lia)) as [_ Hstep].
  exact (Hstep "S2" eq_refl).
Defined.

(** C1. On every instance that calls of [get_remainder] and [reset] can
    leave behind a constructed [ModThreeFSM], [get_remainder] returns, for a
    string of the characters 0 and 1, the value of the string as a binary
    numeral modulo 3; for the empty string it returns 0 and leaves the
    instance, and so the engine, as it was. *)
Theorem get_remainder_binary
    (self0 self : ModThree.ModThreeFSM) (s : string) :
  ModThree.init = Ok self0 ->
  mod3_reachable self0 self ->
  is_binary s = true ->
  (ModThree.get_remainder self (PyStr s)).1 = Ok (integer_value s mod 3)
  ∧ ModThree.get_remainder self (PyStr "") = (Ok 0, self).
Proof.
  rewrite mod3_init. intros [= <-] Hreach Hs. split; [|done].
  destruct (mod3_reachable_frame self Hreach) as [q ->].
  destruct s as [|c rest]; [done|].
  unfold ModThree.get_remainder.
  rewrite is_binary_chars, Hs. simpl negb. cbv iota.
  cbn [ModThree._fsm ModThree._state_to_remainder].
  rewrite (mod3_process q (String c rest) Hs).
  rewrite state_to_remainder_state_of by by apply Z.mod_pos_bound.
  done.
Qed.

Lemma get_remainder_binary_witness :
  ModThree.init = Ok mod3
  ∧ mod3_reachable mod3 (ModThree.get_remainder mod3 (PyStr "10")).2
  ∧ is_binary "1101" = true
  ∧ (ModThree.get_remainder (ModThree.get_remainder mod3 (PyStr "10")).2
       (PyStr "1101")).1 = Ok 1.
Proof.
  split; [reflexivity|].
  split; [apply mreach_get_remainder, mreach_init|].
  split; [reflexivity|].
  apply (proj1 (get_remainder_binary mod3
                  (ModThree.get_remainder mod3 (PyStr "10")).2 "1101"
                  eq_refl
                  (mreach_get_remainder mod3 mod3 (PyStr "10")
                     (mreach_init mod3))
                  eq_refl)).
Defined.

(** C8. [get_remainder] raises the not-a-string error, which carries the
    type of the argument, for every argument that is not a string, and the
    invalid-characters error for every string with a character other than
    0 and 1; the set that this error reports is not empty and holds exactly
    the characters of the string that are neither 0 nor 1.  In both cases
    the instance, and so the engine, is left as it was. *)
Theorem get_remainder_rejects (self : ModThree.ModThreeFSM) (v : pyval) :
  (type_of v ≠ TStr ->
   ModThree.get_remainder self v
   = (Raise (Exn ModThreeFSMError
               (ModThree.msg_not_a_string (type_of v)) None),
      self))
  ∧ (∀ s, v = PyStr s -> is_binary s = false ->
       ∃ invalid_chars : gset string,
         ModThree.get_remainder self v
         = (Raise (Exn ModThreeFSMError
                     (ModThree.msg_invalid_characters invalid_chars) None),
            self)
         ∧ invalid_chars ≠ ∅
         ∧ ∀ c, c ∈ invalid_chars ↔ c ∈ chars s ∧ c ≠ "0" ∧ c ≠ "1").
Proof.
  split.
  - by destruct v.
  - intros s -> Hs.
    exists (list_to_set (chars s) ∖ {[ "0"; "1" ]}).
    assert (∀ c, c ∈ (list_to_set (chars s) ∖ {[ "0"; "1" ]} : gset string)
                 ↔ c ∈ chars s ∧ c ≠ "0" ∧ c ≠ "1") as Hmem.
    { intros c.
      rewrite elem_of_difference, elem_of_list_to_set, not_elem_of_union,
        !elem_of_singleton.
      tauto. }
    split; [|split; [|done]].
    + by apply get_remainder_not_binary.
    + destruct (not_binary_char s Hs) as (c & Hc).
      intros Hempty. apply (not_elem_of_empty (C:=gset string) c).
      rewrite <- Hempty. by apply Hmem.
Qed.

Lemma get_remainder_rejects_witness :
  type_of (PyInt 12) ≠ TStr
  ∧ ModThree.get_remainder mod3 (PyInt 12)
    = (Raise (Exn ModThreeFSMError (ModThree.msg_not_a_string TInt) None),
       mod3)
  ∧ is_binary "102" = false
  ∧ ∃ invalid_chars : gset string,
      ModThree.get_remainder mod3 (PyStr "102")
      = (Raise (Exn ModThreeFSMError
                  (ModThree.msg_invalid_characters invalid_chars) None),
         mod3)
      ∧ invalid_chars ≠ ∅
      ∧ ∀ c, c ∈ invalid_chars ↔ c ∈ chars "102" ∧ c ≠ "0" ∧ c ≠ "1".
Proof.
  split; [discriminate|].
  split.
  - apply (proj1 (get_remainder_rejects mod3 (PyInt 12))). discriminate.
  - split; [reflexivity|].
    exact (proj2 (get_remainder_rejects mod3 (PyStr "102")) "102"
             eq_refl eq_refl).
Defined.

(** The set that is reported holds characters, not bytes, and each of them
    once. *)
Example get_remainder_reports_characters :
  ModThree.get_remainder mod3 (PyStr "1€")
  = (Raise (Exn ModThreeFSMError
              (ModThree.msg_invalid_characters {[ "€" ]}) None),
     mod3)
  ∧ size (list_to_set (chars "1€€2") ∖ {[ "0"; "1" ]} : gset string) = 2%nat.
Proof. split; reflexivity. Qed.

(** ** Error kinds and exception classes *)

Section ErrorKinds.

Lemma init_raise_shape states alphabet transition_map initial_state
    final_states e :
  Fsm.init states alphabet transition_map initial_state final_states
    = Raise e ->
  exn_cls e = FSMError ∧ kind_of_message (exn_str e) = Some ConfigError.
Proof.
  unfold Fsm.init, Fsm._validate_fsm_configuration.
  repeat case_bool_decide; simpl; try (by intros [= <-]).
  destruct (Fsm.validate_transitions _ _ _) as [[]|e'] eqn:Hv; [done|].
  intros [= ->].
  by destruct (validate_transitions_raise_class _ _ _ _ Hv)
    as [x [->|[->| ->]]].
Qed.

Lemma check_final_raise_shape m e :
  (Fsm.check_final m).1 = Raise e ->
  e = Exn FSMError
        (Fsm.msg_rejected (Fsm.current_state m) (Fsm.final_states m)) None.
Proof.
  unfold Fsm.check_final. destruct (negb _); simpl; congruence.
Qed.

Lemma raised_as_shape k e :
  raised_as k e ->
  exn_cls e = class_of_kind k ∧ kind_of_message (exn_str e) = Some k.
Proof.
  destruct 1 as [st al tm ini fin e Hinit
                |m symbol e Hout He
                |m symbol e Hin He
                |m input m' e Hrun He
                |self v e Hty He
                |self s e Hs He
                |e Hinit].
  - by eapply init_raise_shape.
  - rewrite transition_invalid_symbol in He by done.
    by injection He as <-.
  - destruct (transition_cases m symbol)
      as [(Hout & _)|[(_ & _ & Ht)|(q & _ & _ & Ht)]]; [done| |];
      rewrite Ht in He; simpl in He; [|discriminate].
    by injection He as <-.
  - rewrite (process_run _ _ _ Hrun) in He.
    by rewrite (check_final_raise_shape _ _ He).
  - destruct v; simpl in *; try done; by injection He as <-.
  - rewrite get_remainder_not_binary in He by done.
    by injection He as <-.
  - by rewrite mod3_init in Hinit.
Qed.

End ErrorKinds.

(** C3, as the code has it.  The exception class tells the layer only:
    the errors of the four kinds of the engine are all [FSMError]s and the
    errors of the three kinds of the modulo-three layer are all
    [ModThreeFSMError]s.  The kind itself is read from the literal text of
    the message. *)
Theorem error_kind_by_class_and_message (k : error_kind) (e : exn) :
  raised_as k e ->
  exn_cls e = class_of_kind k
  ∧ kind_of_message (exn_str e) = Some k
  ∧ ∀ k' e', raised_as k' e' -> k ≠ k' -> exn_str e ≠ exn_str e'.
Proof.
  intros Hk. destruct (raised_as_shape k e Hk) as [Hcls Hmsg].
  split; [done|]. split; [done|].
  intros k' e' Hk' Hne Heq.
  destruct (raised_as_shape k' e' Hk') as [_ Hmsg'].
  congruence.
Qed.

Lemma error_kind_by_class_and_message_witness :
  raised_as UndefinedTransitionError
    (Exn FSMError (Fsm.msg_no_transition "S0" "b") None)
  ∧ exn_cls (Exn FSMError (Fsm.msg_no_transition "S0" "b") None) = FSMError
  ∧ kind_of_message (Fsm.msg_no_transition "S0" "b")
    = Some UndefinedTransitionError.
Proof.
  assert (raised_as UndefinedTransitionError
            (Exn FSMError (Fsm.msg_no_transition "S0" "b") None)) as Hk.
  { apply (ra_undefined_transition partial_fsm "b");
      [by_evaluation|reflexivity]. }
  split; [exact Hk|].
  destruct (error_kind_by_class_and_message _ _ Hk) as (Hcls & Hmsg & _).
  split; [exact Hcls|exact Hmsg].
Defined.

(** C3, as stated, fails: on the automaton of the test suite with the
    single transition (S0, a) -> S1, the error of the invalid symbol c and
    the error of the undefined transition on b are of two documented kinds
    and of one class, with no context; they differ in their message only. *)
Lemma error_kinds_share_class :
  raised_as InvalidSymbolError
    (Exn FSMError (Fsm.msg_symbol_not_in_alphabet "c" {[ "a"; "b" ]}) None)
  ∧ raised_as UndefinedTransitionError
      (Exn FSMError (Fsm.msg_no_transition "S0" "b") None)
  ∧ exn_cls
      (Exn FSMError (Fsm.msg_symbol_not_in_alphabet "c" {[ "a"; "b" ]}) None)
    = exn_cls (Exn FSMError (Fsm.msg_no_transition "S0" "b") None)
  ∧ ¬ (∀ k1 k2 e1 e2,
         raised_as k1 e1 -> raised_as k2 e2 -> k1 ≠ k2 ->
         exn_cls e1 ≠ exn_cls e2).
Proof.
  assert (raised_as InvalidSymbolError
            (Exn FSMError
               (Fsm.msg_symbol_not_in_alphabet "c" {[ "a"; "b" ]}) None))
    as H1.
  { apply (ra_invalid_symbol partial_fsm "c"); [by_evaluation|reflexivity]. }
  assert (raised_as UndefinedTransitionError
            (Exn FSMError (Fsm.msg_no_transition "S0" "b") None)) as H2.
  { apply (ra_undefined_transition partial_fsm "b");
      [by_evaluation|reflexivity]. }
  split; [exact H1|]. split; [exact H2|]. split; [reflexivity|].
  intros Hclaim. by apply (Hclaim _ _ _ _ H1 H2).
Qed.

(** ** Further properties of the engine *)

Section EngineRuns.

Implicit Types (m : Fsm.FSM) (q symbol : string) (input : list string).

(** The loop of [process] either gets through the whole input or stops at
    the first symbol that a step refuses. *)
Lemma run_steps_cases m input :
  (∃ m', run_steps m input = Some m')
  ∨ (∃ pre symbol post m_pre e,
       input = (pre ++ symbol :: post)%list
       ∧ run_steps m pre = Some m_pre
       ∧ (Fsm.transition m_pre symbol).1 = Raise e).
Proof.
  revert m. induction input as [|a rest IH]; intros m; [left; by exists m|].
  simpl. destruct (Fsm.transition m a) as [[[]|e] m1] eqn:Ht.
  - destruct (IH m1) as [[m' Hrun]|(pre & symbol & post & m_pre & e & -> & Hrun & He)].
    + left. by exists m'.
    + right. exists (a :: pre), symbol, post, m_pre, e.
      repeat split; [|done]. simpl. by rewrite Ht.
  - right. exists [], a, rest, m, e. repeat split. by rewrite Ht.
Qed.

(** What a run that gets through its input has done. *)
Lemma run_steps_inv m input m' :
  run_steps m input = Some m' ->
  Forall (λ symbol, symbol ∈ Fsm.alphabet m) input
  ∧ m' = foldl (λ m1 symbol, (Fsm.transition m1 symbol).2) m input
  ∧ ∃ q, m' = Fsm.set_current_state m q.
Proof.
  revert m. induction input as [|a rest IH]; intros m; simpl.
  - intros [= <-]. repeat split; [constructor|].
    exists (Fsm.current_state m). by rewrite set_current_state_same.
  - destruct (transition_cases m a)
      as [(_ & Ht)|[(_ & _ & Ht)|(q & Hin & _ & Ht)]]; rewrite Ht;
      [discriminate|discriminate|].
    intros Hrun. destruct (IH _ Hrun) as (Hall & Hfold & q' & Hq').
    repeat split; [by constructor|done|by exists q'].
Qed.

Lemma run_steps_take m pre symbol post m_pre :
  run_steps m pre = Some m_pre ->
  (pre ++ symbol :: post)%list !! length pre = Some symbol
  ∧ take (length pre) (pre ++ symbol :: post)%list = pre.
Proof.
  intros _. split.
  - by rewrite list_lookup_middle.
  - by rewrite take_app_length.
Qed.

(** A run of a validated automaton whose transition map has an entry for
    every state and symbol gets through every input over the alphabet. *)
Lemma run_steps_total m input :
  definition_ok m ->
  (∀ q symbol, q ∈ Fsm.states m -> symbol ∈ Fsm.alphabet m ->
     is_Some (dict_get (Fsm.transition_map m) (q, symbol))) ->
  Fsm.current_state m ∈ Fsm.states m ->
  Forall (λ symbol, symbol ∈ Fsm.alphabet m) input ->
  ∃ q, q ∈ Fsm.states m
       ∧ run_steps m input = Some (Fsm.set_current_state m q).
Proof.
  revert m. induction input as [|a rest IH];
    intros m Hdef Htotal Hcur Hall; simpl.
  - exists (Fsm.current_state m). by rewrite set_current_state_same.
  - apply Forall_cons in Hall as [Ha Hall].
    destruct (Htotal _ _ Hcur Ha) as [q Hq].
    pose proof (transition_current_in_states m a Hdef Hcur) as Hnext.
    rewrite (transition_defined m a q Ha Hq) in *. simpl in Hnext.
    destruct (IH (Fsm.set_current_state m q)) as (q' & Hq' & ->); try done.
    by exists q'.
Qed.

End EngineRuns.

(** X1. [reset] gives back the instance that the constructor returned,
    whatever calls of [reset], [transition] and [process] came before and
    however they ended; [get_current_state] then reads the initial
    state. *)
Theorem reset_restores_constructed
    states alphabet transition_map initial_state final_states
    (m0 m : Fsm.FSM) :
  Fsm.init states alphabet transition_map initial_state final_states = Ok m0 ->
  fsm_reachable m0 m ->
  Fsm.reset m = m0
  ∧ Fsm.get_current_state (Fsm.reset m) = initial_state.
Proof.
  intros Hinit Hreach. apply init_ok_inv in Hinit as ->.
  by destruct (fsm_reachable_frame _ _ Hreach) as [q ->].
Qed.

Lemma reset_restores_constructed_witness :
  Fsm.init {[ "S0"; "S1" ]} {[ "a"; "b" ]} (Fsm.transition_map ab_fsm)
    "S0" {[ "S0"; "S1" ]} = Ok ab_fsm
  ∧ fsm_reachable ab_fsm (Fsm.process ab_fsm ["a"; "c"]).2
  ∧ Fsm.current_state (Fsm.process ab_fsm ["a"; "c"]).2 = "S1"
  ∧ Fsm.reset (Fsm.process ab_fsm ["a"; "c"]).2 = ab_fsm.
Proof.
  split; [reflexivity|].
  split; [apply reach_process, reach_init|].
  split; [reflexivity|].
  apply (reset_restores_constructed {[ "S0"; "S1" ]} {[ "a"; "b" ]}
           (Fsm.transition_map ab_fsm) "S0" {[ "S0"; "S1" ]} ab_fsm);
    [reflexivity | apply reach_process, reach_init].
Defined.

(** X2. Every exception that [process] raises is an [FSMError] of one of
    two forms.  Either every step succeeded and the error is the rejection
    of the state reached, which is not a final state, with no context; or
    the error names an index of the input and the symbol at that index, the
    steps on the symbols before it succeeded, the step on that symbol from
    the state they reached raised the error that is the context, and the
    message ends with the message of that error.  In both cases the
    instance that is left is the one the successful steps reached. *)
Theorem process_raises_only (m : Fsm.FSM) (input : list string) (e : exn) :
  (Fsm.process m input).1 = Raise e ->
  exn_cls e = FSMError
  ∧ ((run_steps (Fsm.reset m) input = Some (Fsm.process m input).2
      ∧ (Fsm.current_state (Fsm.process m input).2 ∉ Fsm.final_states m)
      ∧ e = Exn FSMError
              (Fsm.msg_rejected (Fsm.current_state (Fsm.process m input).2)
                 (Fsm.final_states m)) None)
     ∨ (∃ i symbol inner,
          input !! i = Some symbol
          ∧ run_steps (Fsm.reset m) (take i input)
            = Some (Fsm.process m input).2
          ∧ (Fsm.transition (Fsm.process m input).2 symbol).1 = Raise inner
          ∧ e = Exn FSMError (Fsm.msg_position i symbol (exn_str inner))
                  (Some inner))).
Proof.
  intros He.
  destruct (run_steps_cases (Fsm.reset m) input)
    as [[m' Hrun]|(pre & symbol & post & m_pre & inner & -> & Hrun & Hin)].
  - rewrite (process_run _ _ _ Hrun) in *.
    destruct (run_steps_inv _ _ _ Hrun) as (_ & _ & q & ->).
    rewrite check_final_frame. unfold Fsm.check_final in He.
    case_bool_decide as Hfin; simpl in He; [discriminate|].
    injection He as <-. split; [done|]. left. by repeat split.
  - assert (Fsm.process m (pre ++ symbol :: post)%list
            = (Raise (Exn FSMError
                        (Fsm.msg_position (length pre) symbol (exn_str inner))
                        (Some inner)), m_pre)) as Hp.
    { unfold Fsm.process.
      rewrite (process_loop_stop _ 0 pre symbol post m_pre inner Hrun Hin).
      by destruct pre. }
    rewrite Hp in *. simpl in *. injection He as <-. split; [done|].
    right. exists (length pre), symbol, inner.
    destruct (run_steps_take _ pre symbol post _ Hrun) as [-> ->].
    by repeat split.
Qed.

Lemma process_raises_only_witness :
  (Fsm.process ab_fsm ["a"; "c"; "b"]).1
  = Raise (Exn FSMError
             (Fsm.msg_position 1 "c"
                (Fsm.msg_symbol_not_in_alphabet "c" {[ "a"; "b" ]}))
             (Some (Exn FSMError
                      (Fsm.msg_symbol_not_in_alphabet "c" {[ "a"; "b" ]})
                      None)))
  ∧ exn_cls
      (Exn FSMError
         (Fsm.msg_position 1 "c"
            (Fsm.msg_symbol_not_in_alphabet "c" {[ "a"; "b" ]}))
         (Some (Exn FSMError
                  (Fsm.msg_symbol_not_in_alphabet "c" {[ "a"; "b" ]})
                  None)))
    = FSMError.
Proof.
  split; [reflexivity|].
  exact (proj1 (process_raises_only ab_fsm ["a"; "c"; "b"] _ eq_refl)).
Defined.

(** X3. When [process] returns a state, every symbol of the input is in
    the alphabet, the instance left is the one that [reset] followed by one
    step per symbol leaves, the state returned is its current state, as
    [get_current_state] reads it, and it is a final state. *)
Theorem process_returns_inv
    (m : Fsm.FSM) (input : list string) (q : string) (m' : Fsm.FSM) :
  Fsm.process m input = (Ok q, m') ->
  Forall (λ symbol, symbol ∈ Fsm.alphabet m) input
  ∧ m' = foldl (λ m1 symbol, (Fsm.transition m1 symbol).2) (Fsm.reset m)
           input
  ∧ Fsm.get_current_state m' = q
  ∧ q ∈ Fsm.final_states m.
Proof.
  intros Hp.
  destruct (run_steps_cases (Fsm.reset m) input)
    as [[m1 Hrun]|(pre & symbol & post & m_pre & inner & -> & Hrun & Hin)].
  - rewrite (process_run _ _ _ Hrun) in Hp.
    destruct (run_steps_inv _ _ _ Hrun) as (Hall & Hfold & q1 & Hq1).
    unfold Fsm.check_final in Hp.
    case_bool_decide as Hfin; simpl in Hp; [|discriminate].
    injection Hp as <- <-. rewrite Hq1 in Hfin. simpl in Hfin.
    repeat split; [done|done|]. by rewrite Hq1.
  - unfold Fsm.process in Hp.
    rewrite (process_loop_stop _ 0 pre symbol post m_pre inner Hrun Hin)
      in Hp.
    by destruct pre.
Qed.

Lemma process_returns_inv_witness :
  Fsm.process ab_fsm ["a"; "b"] = (Ok "S1", Fsm.set_current_state ab_fsm "S1")
  ∧ Forall (λ symbol, symbol ∈ Fsm.alphabet ab_fsm) ["a"; "b"]
  ∧ "S1" ∈ Fsm.final_states ab_fsm.
Proof.
  split; [reflexivity|].
  destruct (process_returns_inv ab_fsm ["a"; "b"] "S1"
              (Fsm.set_current_state ab_fsm "S1") eq_refl)
    as (Hall & _ & _ & Hfin).
  split; [exact Hall|exact Hfin].
Defined.

(** X4. [FSM.__init__] returns an instance exactly when the five
    invariants hold: states and alphabet are not empty, the initial state
    is a state, the final states are states, and every entry of the
    transition map has its state and its next state among the states and
    its symbol in the alphabet.  The instance then holds the five arguments
    and has the initial state as current state. *)
Theorem init_ok_iff
    (states alphabet : gset string)
    (transition_map : list (string * string * string))
    (initial_state : string) (final_states : gset string) (m : Fsm.FSM) :
  Fsm.init states alphabet transition_map initial_state final_states = Ok m
  ↔ states ≠ ∅ ∧ alphabet ≠ ∅ ∧ initial_state ∈ states
    ∧ final_states ⊆ states
    ∧ Forall (entry_ok states alphabet) transition_map
    ∧ m = Fsm.mkFSM states alphabet transition_map initial_state
            final_states initial_state.
Proof.
  unfold Fsm.init, Fsm._validate_fsm_configuration. split.
  - repeat case_bool_decide; simpl; try discriminate.
    destruct (Fsm.validate_transitions _ _ _) as [[]|e] eqn:Hv;
      [|discriminate].
    intros [= <-]. repeat split; try done.
    by apply validate_transitions_ok_inv.
  - intros (Hs & Ha & Hi & Hf & Hall & ->).
    repeat case_bool_decide; simpl; try done.
    by rewrite validate_transitions_ok.
Qed.

Lemma init_ok_iff_witness :
  Fsm.init {[ "S0"; "S1" ]} {[ "a"; "b" ]} (Fsm.transition_map partial_fsm)
    "S0" {[ "S0"; "S1" ]} = Ok partial_fsm
  ∧ Forall (entry_ok {[ "S0"; "S1" ]} {[ "a"; "b" ]})
      (Fsm.transition_map partial_fsm).
Proof.
  assert (Fsm.init {[ "S0"; "S1" ]} {[ "a"; "b" ]}
            (Fsm.transition_map partial_fsm) "S0" {[ "S0"; "S1" ]}
          = Ok partial_fsm) as Hinit by reflexivity.
  split; [exact Hinit|].
  apply init_ok_iff in Hinit as (_ & _ & _ & _ & Hall & _).
  exact Hall.
Defined.

(** X5. On an automaton whose transition map has an entry for every
    declared state and every symbol of the alphabet, [process] never raises
    a per-symbol error on an input made of symbols of the alphabet: it ends
    in a declared state, returns it if it is final and raises the rejection
    that names it if it is not.  This holds on every instance reached from
    the constructed one. *)
Theorem total_automaton_never_stuck
    states alphabet transition_map initial_state final_states
    (m0 m : Fsm.FSM) (input : list string) :
  Fsm.init states alphabet transition_map initial_state final_states = Ok m0 ->
  fsm_reachable m0 m ->
  (∀ q symbol, q ∈ states -> symbol ∈ alphabet ->
     is_Some (dict_get transition_map (q, symbol))) ->
  Forall (λ symbol, symbol ∈ alphabet) input ->
  ∃ q, q ∈ states
       ∧ Fsm.current_state (Fsm.process m input).2 = q
       ∧ ((q ∈ final_states ∧ (Fsm.process m input).1 = Ok q)
          ∨ ((q ∉ final_states)
             ∧ (Fsm.process m input).1
               = Raise (Exn FSMError (Fsm.msg_rejected q final_states)
                          None))).
Proof.
  intros Hinit Hreach Htotal Hall.
  destruct (init_definition_ok _ _ _ _ _ _ Hinit) as [Hdef _].
  apply init_ok_inv in Hinit as ->.
  destruct (fsm_reachable_frame _ _ Hreach) as [q0 ->].
  rewrite process_forgets_current.
  set (m0 := Fsm.mkFSM states alphabet transition_map initial_state
               final_states initial_state) in *.
  destruct (run_steps_total (Fsm.reset m0) input) as (q & Hq & Hrun);
    try done; [apply Hdef|].
  exists q. split; [done|].
  rewrite (process_run _ _ _ Hrun). unfold Fsm.check_final. simpl.
  case_bool_decide; simpl; split; auto.
Qed.

Lemma total_automaton_never_stuck_witness :
  ∃ q, q ∈ Fsm.states rejecting_fsm
       ∧ Fsm.current_state (Fsm.process rejecting_fsm ["a"; "b"; "a"]).2 = q
       ∧ ((q ∈ Fsm.final_states rejecting_fsm
           ∧ (Fsm.process rejecting_fsm ["a"; "b"; "a"]).1 = Ok q)
          ∨ ((q ∉ Fsm.final_states rejecting_fsm)
             ∧ (Fsm.process rejecting_fsm ["a"; "b"; "a"]).1
               = Raise (Exn FSMError
                          (Fsm.msg_rejected q
                             (Fsm.final_states rejecting_fsm)) None))).
Proof.
  apply (total_automaton_never_stuck (Fsm.states rejecting_fsm)
           (Fsm.alphabet rejecting_fsm) (Fsm.transition_map rejecting_fsm)
           "S0" (Fsm.final_states rejecting_fsm) rejecting_fsm rejecting_fsm).
  - reflexivity.
  - apply reach_init.
  - intros q symbol Hq Hsymbol. simpl in Hq, Hsymbol.
    rewrite !elem_of_union, !elem_of_singleton in Hq.
    rewrite !elem_of_union, !elem_of_singleton in Hsymbol.
    destruct Hq as [[-> | ->] | ->]; destruct Hsymbol as [-> | ->];
      eexists; reflexivity.
  - repeat constructor; by_evaluation.
Defined.

Lemma init_ok_states_nonempty states alphabet transition_map initial_state
    final_states m0 :
  Fsm.init states alphabet transition_map initial_state final_states = Ok m0 ->
  states ≠ ∅.
Proof.
  unfold Fsm.init, Fsm._validate_fsm_configuration.
  by case_bool_decide.
Qed.

(** X6. For every instance reached from a constructed automaton,
    [__str__] shows the number of declared states, which is at least one,
    the alphabet and the current state; two such instances have the same
    [__str__] exactly when they are the same instance. *)
Theorem str_shows_current_state
    states alphabet transition_map initial_state final_states
    (m0 m1 m2 : Fsm.FSM) :
  Fsm.init states alphabet transition_map initial_state final_states = Ok m0 ->
  fsm_reachable m0 m1 ->
  fsm_reachable m0 m2 ->
  Fsm.__str__ m1
  = [Lit "FSM(states="; FmtInt (size states); Lit ", alphabet=";
     FmtSet alphabet; Lit ", current_state=";
     FmtStr (Fsm.get_current_state m1); Lit ")"]
  ∧ (1 ≤ size states)%nat
  ∧ (Fsm.__str__ m1 = Fsm.__str__ m2 ↔ m1 = m2).
Proof.
  intros Hinit H1 H2.
  pose proof (init_ok_states_nonempty _ _ _ _ _ _ Hinit) as Hs.
  apply init_ok_inv in Hinit as ->.
  destruct (fsm_reachable_frame _ _ H1) as [q1 ->].
  destruct (fsm_reachable_frame _ _ H2) as [q2 ->].
  split; [done|]. split.
  - assert (size states ≠ 0%nat) as Hsize; [|lia].
    intros Hzero. apply Hs, leibniz_equiv. by apply size_empty_iff.
  - split; [|by intros ->].
    unfold Fsm.__str__. simpl. by intros [= ->].
Qed.

Lemma str_shows_current_state_witness :
  Fsm.__str__ (Fsm.process partial_fsm ["a"; "b"]).2
  = [Lit "FSM(states="; FmtInt 2; Lit ", alphabet=";
     FmtSet {[ "a"; "b" ]}; Lit ", current_state="; FmtStr "S1"; Lit ")"]
  ∧ Fsm.__str__ (Fsm.process partial_fsm ["a"; "b"]).2
    ≠ Fsm.__str__ partial_fsm.
Proof.
  assert (Fsm.init {[ "S0"; "S1" ]} {[ "a"; "b" ]}
            (Fsm.transition_map partial_fsm) "S0" {[ "S0"; "S1" ]}
          = Ok partial_fsm) as Hinit by reflexivity.
  destruct (str_shows_current_state _ _ _ _ _
              partial_fsm (Fsm.process partial_fsm ["a"; "b"]).2 partial_fsm
              Hinit
              (reach_process _ _ ["a"; "b"] (reach_init _)) (reach_init _))
    as (Hstr & _ & Hiff).
  split; [exact Hstr|].
  intros Heq. apply Hiff in Heq. discriminate Heq.
Defined.

(** ** Further properties of the modulo-three automaton *)

Section ModThreeRuns.

Implicit Types (self : ModThree.ModThreeFSM) (s : string) (q : string).

Local Abbreviation mod3_in q :=
  (ModThree.mkModThreeFSM (Fsm.set_current_state mod3_engine q)
     ModThree.state_to_remainder).

(** [get_remainder] on a binary string that is not empty, with the engine
    in any state. *)
Lemma get_remainder_at q s :
  is_binary s = true -> s ≠ "" ->
  ModThree.get_remainder (mod3_in q) (PyStr s)
  = (Ok (integer_value s mod 3),
     mod3_in (state_of (integer_value s mod 3))).
Proof.
  intros Hs Hne. destruct s as [|c rest]; [done|].
  unfold ModThree.get_remainder.
  rewrite is_binary_chars, Hs. simpl negb. cbv iota.
  cbn [ModThree._fsm ModThree._state_to_remainder].
  rewrite (mod3_process q (String c rest) Hs).
  by rewrite state_to_remainder_state_of by by apply Z.mod_pos_bound.
Qed.

Lemma get_remainder_value q s :
  is_binary s = true ->
  (ModThree.get_remainder (mod3_in q) (PyStr s)).1
  = Ok (integer_value s mod 3).
Proof.
  intros Hs. destruct (decide (s = "")) as [->|Hne]; [done|].
  by rewrite get_remainder_at.
Qed.

Lemma get_remainder_ok_inv q s r :
  (ModThree.get_remainder (mod3_in q) (PyStr s)).1 = Ok r ->
  is_binary s = true ∧ r = integer_value s mod 3.
Proof.
  destruct (is_binary s) eqn:Hs.
  - rewrite get_remainder_value by done. by intros [= <-].
  - by rewrite get_remainder_not_binary.
Qed.

Lemma integer_value_from_append acc s1 s2 :
  integer_value_from acc (String.append s1 s2)
  = integer_value_from (integer_value_from acc s1) s2.
Proof.
  revert acc. induction s1 as [|c rest IH]; intros acc; simpl; [done|].
  apply IH.
Qed.

Lemma integer_value_from_shift acc s :
  integer_value_from acc s
  = acc * 2 ^ Z.of_nat (String.length s) + integer_value s.
Proof.
  unfold integer_value. revert acc.
  induction s as [|c rest IH]; intros acc.
  - simpl. lia.
  - cbn [integer_value_from String.length].
    rewrite (IH (2 * acc + digit_value c)), (IH (2 * 0 + digit_value c)).
    rewrite Nat2Z.inj_succ, Z.pow_succ_r by lia. ring.
Qed.

Lemma is_binary_append s1 s2 :
  is_binary (String.append s1 s2) = is_binary s1 && is_binary s2.
Proof.
  induction s1 as [|c rest IH]; simpl; [done|].
  by rewrite IH, andb_assoc.
Qed.

End ModThreeRuns.

(** X7. On every instance reached from a constructed [ModThreeFSM],
    [get_remainder] has three outcomes only.  It returns a remainder in
    0..2, and then its argument is a string of the characters 0 and 1; or
    it raises a [ModThreeFSMError] with no context, for an argument that is
    not a string or for a string with a character other than 0 and 1, and
    then leaves the instance as it was.  The [KeyError] of the remainder
    table and the wrapped error of the engine never come out. *)
Theorem get_remainder_outcomes
    (self0 self : ModThree.ModThreeFSM) (v : pyval) :
  ModThree.init = Ok self0 ->
  mod3_reachable self0 self ->
  (∀ r, (ModThree.get_remainder self v).1 = Ok r ->
     0 ≤ r < 3 ∧ ∃ s, v = PyStr s ∧ is_binary s = true)
  ∧ (∀ e, (ModThree.get_remainder self v).1 = Raise e ->
       exn_cls e = ModThreeFSMError
       ∧ exn_context e = None
       ∧ (ModThree.get_remainder self v).2 = self
       ∧ ((type_of v ≠ TStr
           ∧ exn_str e = ModThree.msg_not_a_string (type_of v))
          ∨ (∃ s, v = PyStr s
                  ∧ is_binary s = false
                  ∧ exn_str e
                    = ModThree.msg_invalid_characters
                        (list_to_set (chars s) ∖ {[ "0"; "1" ]})))).
Proof.
  rewrite mod3_init. intros [= <-] Hreach.
  destruct (mod3_reachable_frame self Hreach) as [q ->].
  destruct v as [s| | | |];
    try (split; [discriminate|]; intros e [= <-];
         repeat split; left; by split).
  destruct (is_binary s) eqn:Hs.
  - rewrite get_remainder_value by done. split; [|discriminate].
    intros r [= <-]. split; [by apply Z.mod_pos_bound|by exists s].
  - rewrite get_remainder_not_binary by done. split; [discriminate|].
    intros e [= <-]. repeat split. right. by exists s.
Qed.

Lemma get_remainder_outcomes_witness :
  ModThree.init = Ok mod3
  ∧ mod3_reachable mod3 (ModThree.get_remainder mod3 (PyStr "11")).2
  ∧ (ModThree.get_remainder (ModThree.get_remainder mod3 (PyStr "11")).2
       (PyStr "1110")).1 = Ok 2
  ∧ 0 ≤ 2 < 3.
Proof.
  split; [reflexivity|].
  split; [apply mreach_get_remainder, mreach_init|].
  split; [reflexivity|].
  destruct (get_remainder_outcomes mod3
              (ModThree.get_remainder mod3 (PyStr "11")).2 (PyStr "1110")
              eq_refl
              (mreach_get_remainder mod3 mod3 (PyStr "11")
                 (mreach_init mod3)))
    as [Hok _].
  exact (proj1 (Hok 2 eq_refl)).
Defined.

(** X8. What [get_remainder] returns or raises depends on its argument
    only, not on the calls of [get_remainder] and [reset] made before on
    the instance. *)
Theorem get_remainder_history_independent
    (self0 self : ModThree.ModThreeFSM) (v : pyval) :
  ModThree.init = Ok self0 ->
  mod3_reachable self0 self ->
  (ModThree.get_remainder self v).1 = (ModThree.get_remainder self0 v).1.
Proof.
  rewrite mod3_init. intros [= <-] Hreach.
  destruct (mod3_reachable_frame self Hreach) as [q ->].
  destruct v as [s| | | |]; try done.
  destruct (is_binary s) eqn:Hs.
  - rewrite get_remainder_value by done.
    symmetry. by apply (get_remainder_value ModThree.initial_state).
  - by rewrite !get_remainder_not_binary.
Qed.

Lemma get_remainder_history_independent_witness :
  ModThree.init = Ok mod3
  ∧ mod3_reachable mod3 (ModThree.get_remainder mod3 (PyStr "10")).2
  ∧ (ModThree.get_remainder (ModThree.get_remainder mod3 (PyStr "10")).2
       (PyStr "1101")).1
    = (ModThree.get_remainder mod3 (PyStr "1101")).1.
Proof.
  split; [reflexivity|].
  split; [apply mreach_get_remainder, mreach_init|].
  apply (get_remainder_history_independent mod3);
    [reflexivity | apply mreach_get_remainder, mreach_init].
Defined.

(** X9. After [get_remainder] has returned [r] for a string that is not
    empty, the current state of the instance is the state whose entry in
    the remainder table is [r], and [__str__] shows that state. *)
Theorem get_remainder_leaves_state
    (self0 self : ModThree.ModThreeFSM) (s : string) (r : Z) :
  ModThree.init = Ok self0 ->
  mod3_reachable self0 self ->
  s ≠ "" ->
  (ModThree.get_remainder self (PyStr s)).1 = Ok r ->
  ModThree._state_to_remainder (ModThree.get_remainder self (PyStr s)).2
    !! ModThree.get_current_state (ModThree.get_remainder self (PyStr s)).2
  = Some r
  ∧ ModThree.get_current_state (ModThree.get_remainder self (PyStr s)).2
    = state_of r
  ∧ ModThree.__str__ (ModThree.get_remainder self (PyStr s)).2
    = [Lit "ModThreeFSM(current_state="; FmtStr (state_of r); Lit ")"].
Proof.
  rewrite mod3_init. intros [= <-] Hreach Hne.
  destruct (mod3_reachable_frame self Hreach) as [q ->].
  intros Hr. destruct (get_remainder_ok_inv _ _ _ Hr) as [Hs ->].
  rewrite get_remainder_at by done.
  repeat split.
  apply state_to_remainder_state_of. by apply Z.mod_pos_bound.
Qed.

Lemma get_remainder_leaves_state_witness :
  ModThree.init = Ok mod3
  ∧ mod3_reachable mod3 mod3
  ∧ (ModThree.get_remainder mod3 (PyStr "1110")).1 = Ok 2
  ∧ ModThree.get_current_state (ModThree.get_remainder mod3 (PyStr "1110")).2
    = "S2".
Proof.
  split; [reflexivity|]. split; [apply mreach_init|].
  split; [reflexivity|].
  apply (get_remainder_leaves_state mod3 mod3 "1110" 2 eq_refl
           (mreach_init mod3) ltac:(discriminate) eq_refl).
Defined.

(** X10. [ModThreeFSM.reset] gives back the instance that the constructor
    returned, whatever calls came before; its current state is S0. *)
Theorem mod3_reset_restores (self0 self : ModThree.ModThreeFSM) :
  ModThree.init = Ok self0 ->
  mod3_reachable self0 self ->
  ModThree.reset self = self0
  ∧ ModThree.get_current_state (ModThree.reset self) = "S0".
Proof.
  rewrite mod3_init. intros [= <-] Hreach.
  by destruct (mod3_reachable_frame self Hreach) as [q ->].
Qed.

Lemma mod3_reset_restores_witness :
  ModThree.init = Ok mod3
  ∧ mod3_reachable mod3 (ModThree.get_remainder mod3 (PyStr "10")).2
  ∧ ModThree.get_current_state (ModThree.get_remainder mod3 (PyStr "10")).2
    = "S2"
  ∧ ModThree.reset (ModThree.get_remainder mod3 (PyStr "10")).2 = mod3.
Proof.
  split; [reflexivity|].
  split; [apply mreach_get_remainder, mreach_init|].
  split; [reflexivity|].
  apply (mod3_reset_restores mod3);
    [reflexivity | apply mreach_get_remainder, mreach_init].
Defined.

(** X11. When [get_remainder] returns [r1] for [s1] and [r2] for [s2], it
    returns [(r1 * 2 ^ len(s2) + r2) mod 3] for the concatenation
    [s1 + s2].  A string for which [get_remainder] returns is made of the
    digits 0 and 1, one byte each, so [len(s2)] is its number of bytes. *)
Theorem get_remainder_append
    (self0 self : ModThree.ModThreeFSM) (s1 s2 : string) (r1 r2 : Z) :
  ModThree.init = Ok self0 ->
  mod3_reachable self0 self ->
  (ModThree.get_remainder self (PyStr s1)).1 = Ok r1 ->
  (ModThree.get_remainder self (PyStr s2)).1 = Ok r2 ->
  (ModThree.get_remainder self (PyStr (String.append s1 s2))).1
  = Ok ((r1 * 2 ^ Z.of_nat (String.length s2) + r2) mod 3).
Proof.
  rewrite mod3_init. intros [= <-] Hreach.
  destruct (mod3_reachable_frame self Hreach) as [q ->].
  intros [Hs1 ->]%get_remainder_ok_inv [Hs2 ->]%get_remainder_ok_inv.
  rewrite get_remainder_value by by rewrite is_binary_append, Hs1, Hs2.
  f_equal. unfold integer_value at 1.
  rewrite integer_value_from_append, integer_value_from_shift.
  fold (integer_value s1).
  generalize (integer_value s1) (integer_value s2)
    (2 ^ Z.of_nat (String.length s2)).
  intros a b p.
  rewrite (Zplus_mod_idemp_r b (a mod 3 * p)).
  rewrite (Zplus_mod (a mod 3 * p) b), Zmult_mod_idemp_l.
  by rewrite <- Zplus_mod.
Qed.

Lemma get_remainder_append_witness :
  ModThree.init = Ok mod3
  ∧ mod3_reachable mod3 mod3
  ∧ (ModThree.get_remainder mod3 (PyStr "11")).1 = Ok 0
  ∧ (ModThree.get_remainder mod3 (PyStr "01")).1 = Ok 1
  ∧ (ModThree.get_remainder mod3 (PyStr "1101")).1 = Ok 1.
Proof.
  split; [reflexivity|]. split; [apply mreach_init|].
  split; [reflexivity|]. split; [reflexivity|].
  apply (get_remainder_append mod3 mod3 "11" "01" 0 1 eq_refl
           (mreach_init mod3) eq_refl eq_refl).
Defined.

(** ** Processing an input in two parts *)

Section TwoParts.

Implicit Types (m : Fsm.FSM) (q symbol : string) (input : list string).

Lemma run_steps_app m input1 input2 m' :
  run_steps m (input1 ++ input2)%list = Some m' ->
  ∃ m1, run_steps m input1 = Some m1 ∧ run_steps m1 input2 = Some m'.
Proof.
  revert m. induction input1 as [|a rest IH]; intros m; simpl.
  - intros Hrun. by exists m.
  - destruct (Fsm.transition m a) as [[[]|e] m1]; [|discriminate].
    apply IH.
Qed.

Lemma process_ok_run m input q m' :
  Fsm.process m input = (Ok q, m') ->
  run_steps (Fsm.reset m) input = Some m'.
Proof.
  intros Hp.
  destruct (run_steps_cases (Fsm.reset m) input)
    as [[m1 Hrun]|(pre & symbol & post & m_pre & inner & -> & Hrun & Hin)].
  - rewrite (process_run _ _ _ Hrun) in Hp.
    pose proof (check_final_frame m1) as Hframe.
    rewrite Hp in Hframe. simpl in Hframe. by subst m1.
  - unfold Fsm.process in Hp.
    rewrite (process_loop_stop _ 0 pre symbol post m_pre inner Hrun Hin)
      in Hp.
    by destruct pre.
Qed.

End TwoParts.

(** X12. When [process] returns on the concatenation of two inputs, the
    instance it leaves is the one obtained by calling [process] on the
    first input, whether that call returns or raises the rejection, and
    then [transition] on each symbol of the second input; none of these
    steps raises. *)
Theorem process_in_two_parts
    (m : Fsm.FSM) (input1 input2 : list string) (q : string) (m' : Fsm.FSM) :
  Fsm.process m (input1 ++ input2)%list = (Ok q, m') ->
  run_steps (Fsm.process m input1).2 input2 = Some m'
  ∧ foldl (λ m1 symbol, (Fsm.transition m1 symbol).2)
      (Fsm.process m input1).2 input2 = m'
  ∧ Fsm.get_current_state m' = q.
Proof.
  intros Hp. pose proof (process_ok_run _ _ _ _ Hp) as Hrun.
  apply run_steps_app in Hrun as (m1 & Hrun1 & Hrun2).
  rewrite (process_run _ _ _ Hrun1), check_final_frame.
  destruct (run_steps_inv _ _ _ Hrun2) as (_ & <- & _).
  repeat split; [done|].
  rewrite (process_run _ _ _ (process_ok_run _ _ _ _ Hp)) in Hp.
  unfold Fsm.check_final in Hp. case_bool_decide; simpl in Hp; [|done].
  by injection Hp as <-.
Qed.

Lemma process_in_two_parts_witness :
  Fsm.process rejecting_fsm (["a"] ++ ["a"])%list = (Ok "S0", rejecting_fsm)
  ∧ (Fsm.process rejecting_fsm ["a"]).1
    = Raise (Exn FSMError (Fsm.msg_rejected "S1" {[ "S0" ]}) None)
  ∧ run_steps (Fsm.process rejecting_fsm ["a"]).2 ["a"] = Some rejecting_fsm.
Proof.
  split; [reflexivity|]. split; [reflexivity|].
  exact (proj1 (process_in_two_parts rejecting_fsm ["a"] ["a"] "S0"
                  rejecting_fsm eq_refl)).
Defined.
